(** * FTMQ to MQTT bridge: the serial frame parser and the table-driven codec

    A shallow embedding of [Raspberry_Pi/ftmq_bridge/ftmq_mqtt_bridge.py]:
    the per-byte parser [parse_FTMQ], the polling loop [poll_FTMQ] and the
    broker callback [on_message], together with the parts of Python's
    [struct] module they call ([struct.pack] and [struct.unpack] with the
    formats ['<i'] and ['<f']).

    Conventions.
    - A byte read from the serial port is a [Byte.byte]; Python integers are
      [Z]; Python floats are binary64 numbers, given as [spec_float] values
      in canonical form for precision 53 and exponent bound 1024.
    - The bridge object ([self]) is a record that every method receives and
      returns; what a method prints, writes to the serial port or publishes
      is returned as a list of events, in order.
    - A method either returns or raises; both outcomes carry the bridge
      object as the method left it. *)

From Stdlib Require Import ZArith List String Bool Lia.
From Stdlib Require Import Strings.Byte.
From Stdlib Require Import Floats.SpecFloat.
Import ListNotations.

Set Warnings "-register-all".
Local Open Scope string_scope.
Local Open Scope list_scope.
Local Open Scope Z_scope.

(** ** Python values *)

Module Py.

(** What [json.loads] can return, and what [parse_FTMQ] passes to
    [json.dumps]. A [dict] is an association list in insertion order. *)
Inductive pyval : Type :=
| PNone
| PBool (b : bool)
| PInt (z : Z)
| PFloat (f : spec_float)
| PStr (s : string)
| PList (l : list pyval)
| PDict (d : list (string * pyval)).

(** The exceptions the modelled code can raise. *)
Inductive exn : Type :=
| ValueError
| TypeError
| KeyError
| IndexError
| OverflowError
| StructError
| JSONDecodeError
| UnboundLocalError.

(** A small error monad for code that may raise. *)
Definition result (A : Type) : Type := (exn + A)%type.
Definition ret {A : Type} (a : A) : result A := inr a.
Definition raise {A : Type} (e : exn) : result A := inl e.
Definition bind {A B : Type} (m : result A) (k : A -> result B) : result B :=
  match m with
  | inl e => inl e
  | inr a => k a
  end.

Fixpoint assoc (key : string) (d : list (string * pyval)) : option pyval :=
  match d with
  | [] => None
  | (k, v) :: rest => if String.eqb k key then Some v else assoc key rest
  end.

(** [obj[key]] with a [str] key: only a dict can be subscripted that way. *)
Definition getitem_str (obj : pyval) (key : string) : result pyval :=
  match obj with
  | PDict d =>
      match assoc key d with
      | Some v => ret v
      | None => raise KeyError
      end
  | _ => raise TypeError
  end.

(** [obj[i]] with a small non-negative [int] index. A dict that came out of
    [json.loads] has only [str] keys. *)
Definition getitem_int (obj : pyval) (i : nat) : result pyval :=
  match obj with
  | PList l =>
      match nth_error l i with
      | Some v => ret v
      | None => raise IndexError
      end
  | PStr s =>
      match String.get i s with
      | Some c => ret (PStr (String c EmptyString))
      | None => raise IndexError
      end
  | PDict _ => raise KeyError
  | _ => raise TypeError
  end.

(** [operator.index]: the values Python accepts where an integer is
    required ([bool] is a subclass of [int]). *)
Definition index (v : pyval) : option Z :=
  match v with
  | PInt z => Some z
  | PBool b => Some (Z.b2z b)
  | _ => None
  end.

End Py.
Export Py.

Declare Scope py_scope.
Notation "x <- m ;; k" := (bind m (fun x => k))
  (at level 61, m at next level, right associativity) : py_scope.
Local Open Scope py_scope.

(** ** Bytes *)

Definition Z_of_byte (b : byte) : Z := Z.of_N (Byte.to_N b).

(** The byte with value [z mod 256]. *)
Definition byte_of_Z (z : Z) : byte :=
  match Byte.of_N (Z.to_N (z mod 256)) with
  | Some b => b
  | None => x00
  end.

(** [bytes([z])] and the item assignment of a [bytearray]: the value must
    be in [range(256)]. *)
Definition checked_byte (z : Z) : result byte :=
  if (0 <=? z) && (z <? 256) then ret (byte_of_Z z) else raise ValueError.

(** The [n] low bytes of [z], least significant first. *)
Fixpoint le_bytes (n : nat) (z : Z) : list byte :=
  match n with
  | O => []
  | S n' => byte_of_Z z :: le_bytes n' (z / 256)
  end.

(** The unsigned integer a little-endian byte string stands for. *)
Fixpoint le_value (bs : list byte) : Z :=
  match bs with
  | [] => 0
  | b :: rest => Z_of_byte b + 256 * le_value rest
  end.

(** ** The [struct] module, formats ['<i'] and ['<f'] *)

Module Struct.

(** [struct.pack('<i', v)]: [v] must be an integer in the signed 32-bit
    range; the result is its two's complement, little-endian. *)
Definition pack_i (v : pyval) : result (list byte) :=
  match index v with
  | None => raise StructError
  | Some z =>
      if (- 2 ^ 31 <=? z) && (z <? 2 ^ 31)
      then ret (le_bytes 4 z)
      else raise StructError
  end.

(** [struct.unpack('<i', bs)]: exactly four bytes are required. *)
Definition unpack_i (bs : list byte) : result Z :=
  if Nat.eqb (List.length bs) 4
  then let u := le_value bs in
       ret (if u <? 2 ^ 31 then u else u - 2 ^ 32)
  else raise StructError.

(** The C conversion of a double to a float: round to nearest, ties to
    even, at precision 24 and exponent bound 128. *)
Definition float32_of_double (x : spec_float) : spec_float :=
  match x with
  | S754_finite s m e => binary_round 24 128 s m e
  | _ => x
  end.

(** The conversion of a float to a double, which is exact. *)
Definition double_of_float32 (y : spec_float) : spec_float :=
  match y with
  | S754_finite s m e => binary_round 53 1024 s m e
  | _ => y
  end.

Definition is_infinity (x : spec_float) : bool :=
  match x with
  | S754_infinity _ => true
  | _ => false
  end.

Definition sign_bit (s : bool) : Z := if s then 2 ^ 31 else 0.

(** The IEEE 754 binary32 interchange encoding: sign, 8 bits of biased
    exponent, 23 bits of fraction. *)
Definition bits_of_float32 (y : spec_float) : Z :=
  match y with
  | S754_zero s => sign_bit s
  | S754_infinity s => sign_bit s + 255 * 2 ^ 23
  | S754_nan => 255 * 2 ^ 23 + 2 ^ 22
  | S754_finite s m e =>
      if Zpos m <? 2 ^ 23
      then sign_bit s + Zpos m
      else sign_bit s + (e + 150) * 2 ^ 23 + (Zpos m - 2 ^ 23)
  end.

Definition float32_of_bits (u : Z) : spec_float :=
  let s := Z.testbit u 31 in
  let ex := (u / 2 ^ 23) mod 256 in
  let frac := u mod 2 ^ 23 in
  if ex =? 0 then
    match frac with
    | Zpos m => S754_finite s m (-149)
    | _ => S754_zero s
    end
  else if ex =? 255 then
    if frac =? 0 then S754_infinity s else S754_nan
  else
    match frac + 2 ^ 23 with
    | Zpos m => S754_finite s m (ex - 150)
    | _ => S754_nan
    end.

(** [float(z)] for an [int]: correctly rounded, [OverflowError] when out
    of the range of a double. *)
Definition float_of_int (z : Z) : result spec_float :=
  match binary_normalize 53 1024 z 0 false with
  | S754_infinity _ => raise OverflowError
  | f => ret f
  end.

(** The argument conversion of the ['f'] format. *)
Definition as_double (v : pyval) : result spec_float :=
  match v with
  | PFloat f => ret f
  | PInt z => float_of_int z
  | PBool b => float_of_int (Z.b2z b)
  | _ => raise StructError
  end.

(** [struct.pack('<f', v)]: the double is converted to a float; a finite
    double that becomes infinite is refused. *)
Definition pack_f (v : pyval) : result (list byte) :=
  x <- as_double v ;;
  let y := float32_of_double x in
  if is_infinity y && negb (is_infinity x)
  then raise OverflowError
  else ret (le_bytes 4 (bits_of_float32 y)).

(** [struct.unpack('<f', bs)]. *)
Definition unpack_f (bs : list byte) : result spec_float :=
  if Nat.eqb (List.length bs) 4
  then ret (double_of_float32 (float32_of_bits (le_value bs)))
  else raise StructError.

End Struct.
Export Struct.

(** ** The bridge *)

Definition FTMQ_PKT_LEN : nat := 5.
Definition HEADER_CHAR : byte := x40.

(** One value of [topics_lookup['lookup_table']]: the keys ['id'], ['type']
    and ['name'] of the YAML entry. *)
Record entry : Type := Entry {
  entry_id : Z;
  entry_type : string;
  entry_name : string
}.

(** The document loaded from the lookup file. A Python dict keeps its items
    in insertion order; the table is the list of its (topic, entry) items. *)
Record lookup : Type := Lookup {
  mqtt_subscriptions : list string;
  lookup_table : list (string * entry)
}.

(** The attributes of [FTMQ_MQTT_Bridge] that the parser and the callbacks
    read or assign. *)
Record bridge : Type := Bridge {
  topics_lookup : lookup;
  read_buffer : list byte;
  waiting_header : Z
}.

(** [__init__] *)
Definition init (topics : lookup) : bridge :=
  {| topics_lookup := topics; read_buffer := []; waiting_header := 0 |}.

(** A broker message: [msg.topic] and [msg.payload]. *)
Record message : Type := Message {
  topic : string;
  payload : list byte
}.

(** What a method does to the outside, in order. [Publish t d] is
    [self.client.publish(t, json.dumps(d))]; [Serial_write bs] is one call
    of [self.serial.write]. *)
Inductive event : Type :=
| Print_on_msg (t : string) (p : list byte)
| Print_receiving_serial (buf : list byte)
| Print_unexpected_error (e : exn)
| Serial_write (bs : list byte)
| Publish (t : string) (d : pyval).

(** How a method call ends, with the bridge object as it leaves it. *)
Inductive outcome : Type :=
| Returned (self : bridge)
| Raised (e : exn) (self : bridge).

Definition set_waiting_header (self : bridge) (n : Z) : bridge :=
  {| topics_lookup := topics_lookup self;
     read_buffer := read_buffer self;
     waiting_header := n |}.

Definition set_read_buffer (self : bridge) (buf : list byte) : bridge :=
  {| topics_lookup := topics_lookup self;
     read_buffer := buf;
     waiting_header := waiting_header self |}.

(** *** Serial to broker *)

(** [data[i] = value[i]] for [i] in 0..3 on a fresh [bytearray(4)], then
    [list(data)]. *)
Definition array_of_bytes (value : list byte) : result pyval :=
  match value with
  | b0 :: b1 :: b2 :: b3 :: _ =>
      ret (PList [PInt (Z_of_byte b0); PInt (Z_of_byte b1);
                  PInt (Z_of_byte b2); PInt (Z_of_byte b3)])
  | _ => raise IndexError
  end.

(** The [if]/[elif] chain of [parse_FTMQ] on the entry's type. It has no
    [else]: with another type the local [data] keeps what it held, and is
    unbound when nothing was assigned to it yet. *)
Definition decode_value (ty : string) (value : list byte)
    (data : option pyval) : result pyval :=
  if String.eqb ty "int32" then
    z <- unpack_i value ;; ret (PInt z)
  else if String.eqb ty "float" then
    f <- unpack_f value ;; ret (PFloat f)
  else if String.eqb ty "array" then
    array_of_bytes value
  else
    match data with
    | Some d => ret d
    | None => raise UnboundLocalError
    end.

(** The [for] loop of [parse_FTMQ] over the items of the table. There is no
    [break]: every entry with the frame's id publishes. [data] is the local
    variable of that name, which lives across iterations. *)
Fixpoint publish_matching (items : list (string * entry)) (id : byte)
    (value : list byte) (data : option pyval) : list event * option exn :=
  match items with
  | [] => ([], None)
  | (t0, t1) :: rest =>
      if entry_id t1 =? Z_of_byte id then
        match decode_value (entry_type t1) value data with
        | inl e => ([], Some e)
        | inr d =>
            let data' := PDict [(entry_name t1, d)] in
            let (evs, r) := publish_matching rest id value (Some data') in
            (Publish t0 data' :: evs, r)
        end
      else publish_matching rest id value data
  end.

(** [parse_FTMQ(self, byte)] *)
Definition parse_FTMQ (self : bridge) (b : byte) : list event * outcome :=
  if waiting_header self <? 2 then
    if Byte.eqb b HEADER_CHAR
    then ([], Returned (set_waiting_header self (waiting_header self + 1)))
    else ([], Returned self)
  else
    let buf := read_buffer self ++ [b] in
    let self1 := set_read_buffer self buf in
    if Nat.eqb (List.length buf) FTMQ_PKT_LEN then
      match buf with
      | [] => ([Print_receiving_serial buf], Raised IndexError self1)
      | id :: value =>
          match publish_matching (lookup_table (topics_lookup self))
                                 id value None with
          | (evs, Some e) =>
              (Print_receiving_serial buf :: evs, Raised e self1)
          | (evs, None) =>
              (Print_receiving_serial buf :: evs,
               Returned (set_waiting_header (set_read_buffer self1 []) 0))
          end
      end
    else ([], Returned self1).

(** [poll_FTMQ(self)], given the bytes that [self.serial.read] returned. An
    exception of [parse_FTMQ] ends the loop and propagates. *)
Fixpoint poll_FTMQ (self : bridge) (data : list byte) : list event * outcome :=
  match data with
  | [] => ([], Returned self)
  | b :: rest =>
      match parse_FTMQ self b with
      | (evs, Returned self') =>
          let (evs', r) := poll_FTMQ self' rest in (evs ++ evs', r)
      | (evs, Raised e self') => (evs, Raised e self')
      end
  end.

(** Successive calls of [poll_FTMQ] on the same bridge object, one per
    chunk that the serial port delivers; [run] does not catch, so the first
    exception ends the sequence. *)
Fixpoint poll_chunks (self : bridge) (chunks : list (list byte))
    : list event * outcome :=
  match chunks with
  | [] => ([], Returned self)
  | c :: rest =>
      match poll_FTMQ self c with
      | (evs, Returned self') =>
          let (evs', r) := poll_chunks self' rest in (evs ++ evs', r)
      | (evs, Raised e self') => (evs, Raised e self')
      end
  end.

(** *** Broker to serial *)

(** What lines 64 to 73 of [on_message] leave in the local [data]: the
    chain has no [else], so [data] can stay unbound. *)
Inductive encoded : Type :=
| Bound (data : list byte)
| Unbound.

(** [data[i] = value[i]] for [i] in 0..3 on a fresh [bytearray(4)]. *)
Definition bytes_of_array (value : pyval) : result (list byte) :=
  let item (i : nat) : result byte :=
    v <- getitem_int value i ;;
    match index v with
    | Some z => checked_byte z
    | None => raise TypeError
    end in
  b0 <- item 0%nat ;;
  b1 <- item 1%nat ;;
  b2 <- item 2%nat ;;
  b3 <- item 3%nat ;;
  ret [b0; b1; b2; b3].

Definition encode_value (ty : string) (value : pyval) : result encoded :=
  if String.eqb ty "int32" then
    data <- pack_i value ;; ret (Bound data)
  else if String.eqb ty "float" then
    data <- pack_f value ;; ret (Bound data)
  else if String.eqb ty "array" then
    data <- bytes_of_array value ;; ret (Bound data)
  else ret Unbound.

Section OnMessage.

(** [json.loads(payload.decode('utf-8'))]: the parsed value, or the
    exception of the decoder or of the parser. *)
Variable json_loads : list byte -> result pyval.

(** The body of the [try] statement of [on_message], up to the first
    exception: the events so far and the exception, if any. *)
Definition try_write (t1 : entry) (id : byte) (msg : message)
    : list event * option exn :=
  match (obj <- json_loads (payload msg) ;;
         value <- getitem_str obj (entry_name t1) ;;
         encode_value (entry_type t1) value) with
  | inl e => ([], Some e)
  | inr (Bound data) =>
      ([Serial_write [HEADER_CHAR]; Serial_write [HEADER_CHAR];
        Serial_write [id]; Serial_write data], None)
  | inr Unbound =>
      ([Serial_write [HEADER_CHAR]; Serial_write [HEADER_CHAR];
        Serial_write [id]], Some UnboundLocalError)
  end.

(** The [for] loop of [on_message]: the first item whose key is the topic
    of the message is handled, and the method returns. [bytes([id])] is
    evaluated before the [try]: its exception is not caught. *)
Fixpoint on_message_items (items : list (string * entry)) (self : bridge)
    (msg : message) : list event * outcome :=
  match items with
  | [] => ([], Returned self)
  | (t0, t1) :: rest =>
      if String.eqb t0 (topic msg) then
        match checked_byte (entry_id t1) with
        | inl e => ([], Raised e self)
        | inr id =>
            match try_write t1 id msg with
            | (evs, Some e) =>
                (evs ++ [Print_unexpected_error e], Returned self)
            | (evs, None) => (evs, Returned self)
            end
        end
      else on_message_items rest self msg
  end.

(** [on_message(self, client, userdata, msg)] *)
Definition on_message (self : bridge) (msg : message) : list event * outcome :=
  let (evs, r) :=
    on_message_items (lookup_table (topics_lookup self)) self msg in
  (Print_on_msg (topic msg) (payload msg) :: evs, r).

End OnMessage.

(** [start_FTMQ(self)] *)
Definition start_FTMQ (self : bridge) : list event * outcome :=
  match pack_i (PInt 0) with
  | inl e => ([], Raised e self)
  | inr data =>
      ([Serial_write [HEADER_CHAR]; Serial_write [HEADER_CHAR];
        Serial_write [x00]; Serial_write data], Returned self)
  end.

(** ** Vocabulary of the properties *)

(** A frame: the identifier byte and the payload that follows it. *)
Record frame : Type := Frame {
  identifier : byte;
  frame_payload : list byte
}.

(** The seven bytes of a frame on the wire. *)
Definition wire (f : frame) : list byte :=
  [HEADER_CHAR; HEADER_CHAR; identifier f] ++ frame_payload f.

(** The frames that a trace reports complete: [parse_FTMQ] prints the
    buffer exactly when it holds a whole packet. *)
Fixpoint emitted_frames (evs : list event) : list frame :=
  match evs with
  | [] => []
  | Print_receiving_serial (id :: value) :: rest =>
      Frame id value :: emitted_frames rest
  | _ :: rest => emitted_frames rest
  end.

Fixpoint publishes (evs : list event) : list (string * pyval) :=
  match evs with
  | [] => []
  | Publish t d :: rest => (t, d) :: publishes rest
  | _ :: rest => publishes rest
  end.

Fixpoint serial_writes (evs : list event) : list (list byte) :=
  match evs with
  | [] => []
  | Serial_write bs :: rest => bs :: serial_writes rest
  | _ :: rest => serial_writes rest
  end.

(** The types that the [if]/[elif] chains know. *)
Definition known_type (ty : string) : bool :=
  String.eqb ty "int32" || String.eqb ty "float" || String.eqb ty "array".

(** Every entry of the table has one of the three known types. *)
Definition table_typed (items : list (string * entry)) : bool :=
  forallb (fun it => known_type (entry_type (snd it))) items.

(** The entries that [parse_FTMQ] selects for a frame id. *)
Definition matching (items : list (string * entry)) (id : byte)
    : list (string * entry) :=
  filter (fun it => entry_id (snd it) =? Z_of_byte id) items.

(** The first item that [on_message] selects for a topic. *)
Definition first_topic (items : list (string * entry)) (t : string)
    : option (string * entry) :=
  find (fun it => String.eqb (fst it) t) items.

(** A double whose value a float holds exactly: zeros, infinities and NaN,
    and the finite [m * 2^e] that is a multiple of the unit in the last
    place of the float format at its magnitude and below the float
    overflow threshold. *)
Definition float32_exact (f : spec_float) : bool :=
  match f with
  | S754_finite _ m e =>
      bounded 53 1024 m e
      && (Zpos m mod 2 ^ Z.max 29 (- 149 - e) =? 0)
      && (e + 29 <=? 104)
  | _ => true
  end.

Definition is_byte_value (v : pyval) : bool :=
  match v with
  | PInt z => (0 <=? z) && (z <? 256)
  | _ => false
  end.

(** The typed values of the three types: a signed 32-bit integer, a 32-bit
    float, a sequence of four bytes. *)
Definition representable (ty : string) (v : pyval) : bool :=
  if String.eqb ty "int32" then
    match v with
    | PInt z => (- 2 ^ 31 <=? z) && (z <? 2 ^ 31)
    | _ => false
    end
  else if String.eqb ty "float" then
    match v with
    | PFloat f => float32_exact f
    | _ => false
    end
  else if String.eqb ty "array" then
    match v with
    | PList [a; b; c; d] =>
        is_byte_value a && is_byte_value b && is_byte_value c && is_byte_value d
    | _ => false
    end
  else false.

(** The value that [parse_FTMQ] publishes for an entry of a known type. *)
Definition decoded (ty : string) (value : list byte) : pyval :=
  match decode_value ty value None with
  | inr d => d
  | inl _ => PNone
  end.

(** The publish action of one selected item. *)
Definition publish_of (value : list byte) (it : string * entry)
    : string * pyval :=
  (fst it, PDict [(entry_name (snd it), decoded (entry_type (snd it)) value)]).

(** What holds of the parser between two calls of [parse_FTMQ]: the table
    is the one the bridge was built with; while the header is awaited the
    buffer is empty; after the header at most four bytes are buffered. *)
Definition parser_inv (topics : lookup) (self : bridge) : Prop :=
  topics_lookup self = topics /\
  (((waiting_header self = 0 \/ waiting_header self = 1) /\
    read_buffer self = []) \/
   (waiting_header self = 2 /\ (List.length (read_buffer self) <= 4)%nat)).

(** *** Sample data *)

(** A lookup document with one entry of each type. *)
Definition sample_topics : lookup :=
  {| mqtt_subscriptions := ["home/setpoint"; "home/gain"; "home/colour"];
     lookup_table :=
       [("home/setpoint", Entry 1 "int32" "value");
        ("home/gain", Entry 2 "float" "gain");
        ("home/colour", Entry 3 "array" "rgbw")] |}.

(** Two topics that carry the same identifier. *)
Definition shared_id_topics : lookup :=
  {| mqtt_subscriptions := [];
     lookup_table :=
       [("plant/level", Entry 7 "int32" "level");
        ("mirror/level", Entry 7 "int32" "copy")] |}.

Definition sample_frame : frame := Frame x01 [x2a; x00; x00; x00].
Definition other_frame : frame := Frame x03 [x01; x02; x03; x04].

(** The double 3.5, that is 7 * 2^-1. *)
Definition three_and_a_half : spec_float :=
  Eval cbv in binary_normalize 53 1024 7 (-1) false.

(** A frame whose identifier is in neither sample table. *)
Definition stray_frame : frame := Frame x63 [x00; x01; x02; x03].

(** A parser that always yields the same object, for closed examples. *)
Definition loads_constant (obj : pyval) : list byte -> result pyval :=
  fun _ => ret obj.

(** A parser that refuses every text. *)
Definition loads_refuse : list byte -> result pyval :=
  fun _ => raise JSONDecodeError.

(** *** Vocabulary of the further properties *)

(** The bridge object that a call leaves, returned or raised. *)
Definition bridge_of (o : outcome) : bridge :=
  match o with
  | Returned self => self
  | Raised _ self => self
  end.

(** How far the parser is into a frame: header bytes seen plus bytes
    buffered. *)
Definition progress (self : bridge) : nat :=
  (Z.to_nat (waiting_header self) + List.length (read_buffer self))%nat.

(** What the selected entries publish, in order, when [data] holds [prev]
    before the first of them: an entry of a known type publishes the
    decoded payload, an entry of another type publishes again the object
    published just before it. *)
Fixpoint fan_out (ms : list (string * entry)) (value : list byte)
    (prev : pyval) : list (string * pyval) :=
  match ms with
  | [] => []
  | (t0, t1) :: rest =>
      let d := if known_type (entry_type t1)
               then decoded (entry_type t1) value
               else prev in
      let obj := PDict [(entry_name t1, d)] in
      (t0, obj) :: fan_out rest value obj
  end.

(** A frame on the wire with noise before each of its two header bytes. *)
Definition noisy_wire (g1 g2 : list byte) (f : frame) : list byte :=
  g1 ++ [HEADER_CHAR] ++ g2 ++ [HEADER_CHAR] ++ [identifier f]
     ++ frame_payload f.

Definition noise_free (g : list byte) : Prop :=
  Forall (fun b => b <> HEADER_CHAR) g.

(** A stream of frames, each with its noise. *)
Fixpoint noisy_stream (fs : list (list byte * list byte * frame))
    : list byte :=
  match fs with
  | [] => []
  | (g1, g2, f) :: rest => noisy_wire g1 g2 f ++ noisy_stream rest
  end.

(** The four bytes are a binary32 NaN: exponent field 255 and a fraction
    other than zero. *)
Definition is_nan_pattern (value : list byte) : bool :=
  let u := le_value value in
  ((u / 2 ^ 23) mod 256 =? 255) && negb (u mod 2 ^ 23 =? 0).

(** The bytes that every NaN is packed to. *)
Definition nan_bytes : list byte := [x00; x00; xc0; x7f].

(** The publish calls for a list of (topic, object) pairs. *)
Definition publish_events (ps : list (string * pyval)) : list event :=
  map (fun p => Publish (fst p) (snd p)) ps.

(** A frame of the stream with noise that holds no header byte and a
    payload of four bytes. *)
Definition clean (x : list byte * list byte * frame) : Prop :=
  noise_free (fst (fst x)) /\ noise_free (snd (fst x)) /\
  List.length (frame_payload (snd x)) = 4%nat.

(** ** Bytes and little-endian strings *)

Lemma Z_of_byte_range (b : byte) : 0 <= Z_of_byte b < 256.
Proof.
  unfold Z_of_byte. pose proof (Byte.to_N_bounded b). lia.
Qed.

Lemma byte_of_Z_of_byte (b : byte) : byte_of_Z (Z_of_byte b) = b.
Proof.
  unfold byte_of_Z. pose proof (Z_of_byte_range b) as Hb.
  rewrite Z.mod_small by exact Hb.
  unfold Z_of_byte. rewrite N2Z.id, Byte.of_to_N. reflexivity.
Qed.

Lemma Z_of_byte_of_Z (z : Z) : Z_of_byte (byte_of_Z z) = z mod 256.
Proof.
  unfold byte_of_Z.
  assert (Hr : 0 <= z mod 256 < 256) by (apply Z.mod_pos_bound; lia).
  destruct (Byte.of_N (Z.to_N (z mod 256))) as [b|] eqn:E.
  - apply Byte.to_of_N in E. unfold Z_of_byte. rewrite E. lia.
  - apply Byte.of_N_None_iff in E. lia.
Qed.

Lemma byte_eqb_neq (a b : byte) : a <> b -> Byte.eqb a b = false.
Proof.
  intros Hne. destruct (Byte.eqb a b) eqn:E; [|reflexivity].
  apply Byte.byte_dec_bl in E. contradiction.
Qed.

Lemma le_bytes_length (n : nat) (z : Z) : List.length (le_bytes n z) = n.
Proof.
  revert z. induction n as [|n IH]; intros z; simpl; [reflexivity|].
  now rewrite IH.
Qed.

Lemma le_value_le_bytes (n : nat) (z : Z) :
  le_value (le_bytes n z) = z mod 256 ^ Z.of_nat n.
Proof.
  revert z. induction n as [|n IH]; intros z.
  - simpl. now rewrite Z.mod_1_r.
  - cbn [le_bytes le_value]. rewrite IH, Z_of_byte_of_Z.
    rewrite Nat2Z.inj_succ, Z.pow_succ_r by lia.
    rewrite Z.rem_mul_r by lia. reflexivity.
Qed.

Lemma le_value_range (bs : list byte) :
  0 <= le_value bs < 256 ^ Z.of_nat (List.length bs).
Proof.
  induction bs as [|b bs IH].
  - simpl. lia.
  - cbn [le_value List.length]. rewrite Nat2Z.inj_succ, Z.pow_succ_r by lia.
    pose proof (Z_of_byte_range b). lia.
Qed.

Lemma le_bytes_le_value (bs : list byte) :
  le_bytes (List.length bs) (le_value bs) = bs.
Proof.
  induction bs as [|b bs IH]; [reflexivity|].
  cbn [le_value List.length le_bytes].
  pose proof (Z_of_byte_range b) as Hb.
  assert (Hq : (Z_of_byte b + 256 * le_value bs) / 256 = le_value bs).
  { rewrite (Z.mul_comm 256), Z.div_add by lia.
    rewrite Z.div_small by exact Hb. lia. }
  rewrite Hq, IH. f_equal.
  unfold byte_of_Z.
  rewrite (Z.mul_comm 256), Z.mod_add by lia.
  rewrite Z.mod_small by exact Hb.
  unfold Z_of_byte. rewrite N2Z.id, Byte.of_to_N. reflexivity.
Qed.

(** ** The parser, byte by byte *)

Lemma parse_sync (self : bridge) :
  waiting_header self < 2 ->
  parse_FTMQ self HEADER_CHAR =
    ([], Returned (set_waiting_header self (waiting_header self + 1))).
Proof.
  intros H. unfold parse_FTMQ.
  apply Z.ltb_lt in H. rewrite H. reflexivity.
Qed.

Lemma parse_discard (self : bridge) (b : byte) :
  waiting_header self < 2 -> b <> HEADER_CHAR ->
  parse_FTMQ self b = ([], Returned self).
Proof.
  intros H Hb. unfold parse_FTMQ.
  apply Z.ltb_lt in H. rewrite H, (byte_eqb_neq _ _ Hb). reflexivity.
Qed.

Lemma parse_collect (self : bridge) (b : byte) :
  2 <= waiting_header self ->
  List.length (read_buffer self ++ [b]) <> FTMQ_PKT_LEN ->
  parse_FTMQ self b =
    ([], Returned (set_read_buffer self (read_buffer self ++ [b]))).
Proof.
  intros H Hlen. unfold parse_FTMQ.
  apply Z.ltb_ge in H. rewrite H.
  apply Nat.eqb_neq in Hlen. rewrite Hlen. reflexivity.
Qed.

Lemma parse_complete (self : bridge) (b id : byte) (value : list byte) :
  2 <= waiting_header self ->
  read_buffer self ++ [b] = id :: value ->
  List.length value = 4%nat ->
  parse_FTMQ self b =
    let buf := id :: value in
    match publish_matching (lookup_table (topics_lookup self)) id value None with
    | (evs, Some e) =>
        (Print_receiving_serial buf :: evs,
         Raised e (set_read_buffer self buf))
    | (evs, None) =>
        (Print_receiving_serial buf :: evs, Returned (init (topics_lookup self)))
    end.
Proof.
  intros H Hbuf Hlen. unfold parse_FTMQ.
  apply Z.ltb_ge in H. rewrite H, Hbuf.
  cbn [List.length]. rewrite Hlen. cbn [Nat.eqb FTMQ_PKT_LEN].
  destruct (publish_matching _ id value None) as [evs [e|]]; reflexivity.
Qed.

Lemma poll_app (self : bridge) (xs ys : list byte) :
  poll_FTMQ self (xs ++ ys) =
    match poll_FTMQ self xs with
    | (evs, Returned self') =>
        let (evs', r) := poll_FTMQ self' ys in (evs ++ evs', r)
    | (evs, Raised e self') => (evs, Raised e self')
    end.
Proof.
  revert self. induction xs as [|x xs IH]; intros self.
  - cbn [app poll_FTMQ]. destruct (poll_FTMQ self ys). reflexivity.
  - cbn [app poll_FTMQ].
    destruct (parse_FTMQ self x) as [evs [self'|e self']]; [|reflexivity].
    rewrite IH.
    destruct (poll_FTMQ self' xs) as [evs1 [self1|e1 self1]]; [|reflexivity].
    destruct (poll_FTMQ self1 ys) as [evs2 r2].
    now rewrite app_assoc.
Qed.

Lemma poll_discard (self : bridge) (garbage : list byte) :
  waiting_header self < 2 ->
  Forall (fun b => b <> HEADER_CHAR) garbage ->
  poll_FTMQ self garbage = ([], Returned self).
Proof.
  intros H Hg. induction Hg as [|b bs Hb _ IH]; [reflexivity|].
  cbn [poll_FTMQ]. rewrite (parse_discard _ _ H Hb), IH. reflexivity.
Qed.

(** ** The loop over the table *)

Lemma decode_value_known (ty : string) (value : list byte) (data : option pyval) :
  known_type ty = true -> List.length value = 4%nat ->
  decode_value ty value data = inr (decoded ty value).
Proof.
  intros Hty Hlen. unfold decoded, decode_value, known_type in *.
  destruct value as [|b0 [|b1 [|b2 [|b3 [|]]]]]; try discriminate Hlen.
  destruct (String.eqb ty "int32"); [reflexivity|].
  destruct (String.eqb ty "float"); [reflexivity|].
  destruct (String.eqb ty "array"); [reflexivity|discriminate Hty].
Qed.

Lemma publish_matching_typed (items : list (string * entry)) (id : byte)
    (value : list byte) (data : option pyval) :
  table_typed items = true -> List.length value = 4%nat ->
  exists evs,
    publish_matching items id value data = (evs, None) /\
    publishes evs = map (publish_of value) (matching items id) /\
    emitted_frames evs = [] /\ serial_writes evs = [].
Proof.
  intros Hty Hlen. revert data.
  induction items as [|[t0 t1] rest IH]; intros data.
  - exists []. repeat split; reflexivity.
  - cbn [table_typed forallb snd] in Hty. apply andb_prop in Hty as [Ht1 Hrest].
    cbn [publish_matching matching filter snd].
    destruct (entry_id t1 =? Z_of_byte id).
    + rewrite (decode_value_known _ _ data Ht1 Hlen).
      destruct (IH Hrest (Some (PDict [(entry_name t1, decoded (entry_type t1) value)])))
        as (evs & -> & Hp & Hf & Hw).
      eexists. split; [reflexivity|].
      cbn [publishes emitted_frames serial_writes map]. rewrite Hp.
      repeat split; assumption.
    + apply (IH Hrest).
Qed.

Lemma publish_matching_none (items : list (string * entry)) (id : byte)
    (value : list byte) (data : option pyval) :
  matching items id = [] ->
  publish_matching items id value data = ([], None).
Proof.
  revert data. induction items as [|[t0 t1] rest IH]; intros data Hm.
  - reflexivity.
  - cbn [publish_matching matching filter snd] in *.
    destruct (entry_id t1 =? Z_of_byte id); [discriminate Hm|].
    now apply IH.
Qed.

(** One whole frame, fed to a bridge between frames. *)
Lemma poll_wire (topics : lookup) (f : frame) :
  List.length (frame_payload f) = 4%nat ->
  poll_FTMQ (init topics) (wire f) =
    let buf := identifier f :: frame_payload f in
    match publish_matching (lookup_table topics)
            (identifier f) (frame_payload f) None with
    | (evs, Some e) =>
        (Print_receiving_serial buf :: evs,
         Raised e {| topics_lookup := topics; read_buffer := buf;
                     waiting_header := 2 |})
    | (evs, None) => (Print_receiving_serial buf :: evs, Returned (init topics))
    end.
Proof.
  destruct f as [id value]. cbn [identifier frame_payload].
  intros Hlen.
  destruct value as [|b0 [|b1 [|b2 [|b3 [|]]]]]; try discriminate Hlen.
  unfold wire. cbn [identifier frame_payload app poll_FTMQ].
  rewrite parse_sync by (cbn; lia). cbn [app].
  rewrite parse_sync by (cbn; lia). cbn [app].
  rewrite parse_collect by (cbn; try lia; discriminate). cbn [app].
  rewrite parse_collect by (cbn; try lia; discriminate). cbn [app].
  rewrite parse_collect by (cbn; try lia; discriminate). cbn [app].
  rewrite parse_collect by (cbn; try lia; discriminate). cbn [app].
  rewrite (parse_complete _ b3 id [b0; b1; b2; b3])
    by (cbn; try lia; reflexivity).
  cbn [set_read_buffer set_waiting_header topics_lookup init read_buffer
       waiting_header Z.add Pos.add].
  destruct (publish_matching (lookup_table topics) id [b0; b1; b2; b3] None)
    as [evs [e|]]; [reflexivity|].
  cbn [poll_FTMQ]. now rewrite app_nil_r.
Qed.

(** Why the tables are taken with known types: an entry of another type
    that carries the frame's id makes [parse_FTMQ] raise at the first use
    of the unbound [data], before the buffer and the header count are
    reset. *)
Lemma unknown_type_raises :
  let topics := {| mqtt_subscriptions := [];
                   lookup_table := [("plant/level", Entry 7 "uint8" "level")] |} in
  poll_FTMQ (init topics) (wire (Frame x07 [x05; x00; x00; x00])) =
    ([Print_receiving_serial [x07; x05; x00; x00; x00]],
     Raised UnboundLocalError
       {| topics_lookup := topics;
          read_buffer := [x07; x05; x00; x00; x00];
          waiting_header := 2 |}).
Proof. reflexivity. Qed.

(** The frame that [start_FTMQ] sends: identifier 0 and a zero payload. *)
Lemma start_FTMQ_frame (self : bridge) :
  exists evs,
    start_FTMQ self = (evs, Returned self) /\
    List.concat (serial_writes evs) = wire (Frame x00 [x00; x00; x00; x00]).
Proof. eexists. split; reflexivity. Qed.

(** ** Traces *)

Lemma emitted_frames_app (xs ys : list event) :
  emitted_frames (xs ++ ys) = emitted_frames xs ++ emitted_frames ys.
Proof.
  induction xs as [|x xs IH]; [reflexivity|].
  destruct x as [t p|[|id value]|e|bs|t d]; cbn [app emitted_frames];
    rewrite IH; reflexivity.
Qed.

(** One whole frame and a table of known types: the frame is reported, every
    selected entry publishes, and the parser is between frames again. *)
Lemma poll_wire_typed (topics : lookup) (f : frame) :
  table_typed (lookup_table topics) = true ->
  List.length (frame_payload f) = 4%nat ->
  exists evs,
    poll_FTMQ (init topics) (wire f) = (evs, Returned (init topics)) /\
    emitted_frames evs = [f] /\
    publishes evs =
      map (publish_of (frame_payload f))
          (matching (lookup_table topics) (identifier f)) /\
    serial_writes evs = [].
Proof.
  intros Hty Hlen. rewrite (poll_wire _ _ Hlen). cbv zeta.
  destruct (publish_matching_typed _ (identifier f) _ None Hty Hlen)
    as (evs & -> & Hp & Hf & Hw).
  eexists. split; [reflexivity|].
  cbn [emitted_frames publishes serial_writes]. rewrite Hf.
  destruct f as [id value]. repeat split; assumption.
Qed.

(** ** The invariant of the parser *)

Lemma init_inv (topics : lookup) : parser_inv topics (init topics).
Proof.
  split; [reflexivity|]. left. split; [left|]; reflexivity.
Qed.

Lemma parse_inv (topics : lookup) (self : bridge) (b : byte) :
  table_typed (lookup_table topics) = true ->
  parser_inv topics self ->
  exists evs self',
    parse_FTMQ self b = (evs, Returned self') /\
    parser_inv topics self' /\
    (emitted_frames evs <> [] -> self' = init topics).
Proof.
  intros Hty [Htab [[Hwh Hbuf]|[Hwh Hlen]]].
  - (* awaiting the header *)
    destruct (Byte.byte_eq_dec b HEADER_CHAR) as [->|Hb].
    + rewrite parse_sync by lia.
      eexists _, _. split; [reflexivity|]. split.
      * split; [exact Htab|]. cbn [set_waiting_header waiting_header read_buffer].
        destruct Hwh as [-> | ->]; [left|right]; split; auto; rewrite Hbuf; cbn; lia.
      * intros H. now contradiction H.
    + rewrite parse_discard by (lia || assumption).
      eexists _, _. split; [reflexivity|]. split.
      * split; [exact Htab|]. left. now split.
      * intros H. now contradiction H.
  - (* collecting the packet *)
    destruct (Nat.eq_dec (List.length (read_buffer self ++ [b])) FTMQ_PKT_LEN)
      as [Hfull|Hpart].
    + destruct (read_buffer self) as [|id rest] eqn:Ebuf.
      { cbn in Hfull. discriminate Hfull. }
      assert (Hval : List.length (rest ++ [b]) = 4%nat).
      { cbn [app List.length] in Hfull. unfold FTMQ_PKT_LEN in Hfull. lia. }
      rewrite (parse_complete self b id (rest ++ [b]))
        by (try lia; try assumption; rewrite Ebuf; reflexivity).
      cbv zeta. rewrite Htab.
      destruct (publish_matching_typed _ id _ None Hty Hval)
        as (evs & -> & _ & _ & _).
      eexists _, _. split; [reflexivity|]. split.
      * apply init_inv.
      * reflexivity.
    + rewrite parse_collect by (lia || assumption).
      eexists _, _. split; [reflexivity|]. split.
      * split; [exact Htab|]. right.
        cbn [set_read_buffer waiting_header read_buffer]. split; [exact Hwh|].
        rewrite length_app in *. cbn [List.length] in *.
        unfold FTMQ_PKT_LEN in Hpart. lia.
      * intros H. now contradiction H.
Qed.

Lemma poll_inv (topics : lookup) (data : list byte) :
  table_typed (lookup_table topics) = true ->
  forall self, parser_inv topics self ->
  exists evs self',
    poll_FTMQ self data = (evs, Returned self') /\ parser_inv topics self'.
Proof.
  intros Hty. induction data as [|b data IH]; intros self Hinv.
  - exists [], self. now split.
  - destruct (parse_inv topics self b Hty Hinv) as (evs & self1 & E1 & Hinv1 & _).
    destruct (IH self1 Hinv1) as (evs2 & self2 & E2 & Hinv2).
    cbn [poll_FTMQ]. rewrite E1, E2.
    eexists _, _. now split.
Qed.

Lemma poll_chunks_concat (self : bridge) (chunks : list (list byte)) :
  poll_chunks self chunks = poll_FTMQ self (List.concat chunks).
Proof.
  revert self. induction chunks as [|c chunks IH]; intros self; [reflexivity|].
  cbn [poll_chunks List.concat]. rewrite poll_app.
  destruct (poll_FTMQ self c) as [evs [self'|e self']]; [|reflexivity].
  now rewrite IH.
Qed.

Lemma concat_singletons {A : Type} (xs : list A) :
  List.concat (map (fun x => [x]) xs) = xs.
Proof.
  induction xs as [|x xs IH]; [reflexivity|]. cbn. now rewrite IH.
Qed.

(** ** Properties of the frame parser *)

(** C3, sync recovery. From the state between frames, bytes that differ from
    the header byte 0x40 followed by the seven bytes of a frame report
    exactly that frame, and the parser is between frames again: the header
    count is 0 and the buffer is empty. *)
Theorem sync_recovery (topics : lookup) (garbage : list byte) (f : frame)
    (Htyped : table_typed (lookup_table topics) = true)
    (Hgarbage : Forall (fun b => b <> HEADER_CHAR) garbage)
    (Hlen : List.length (frame_payload f) = 4%nat) :
  exists evs self',
    poll_FTMQ (init topics) (garbage ++ wire f) = (evs, Returned self') /\
    emitted_frames evs = [f] /\
    waiting_header self' = 0 /\ read_buffer self' = [].
Proof.
  destruct (poll_wire_typed topics f Htyped Hlen) as (evs & E & Hf & _).
  rewrite poll_app, poll_discard by (cbn; lia || assumption).
  rewrite E. exists evs, (init topics). repeat split; assumption.
Qed.

Lemma sync_recovery_witness :
  table_typed (lookup_table sample_topics) = true /\
  Forall (fun b => b <> HEADER_CHAR) [x00; xff; x41] /\
  List.length (frame_payload sample_frame) = 4%nat /\
  exists evs self',
    poll_FTMQ (init sample_topics) ([x00; xff; x41] ++ wire sample_frame)
      = (evs, Returned self') /\
    emitted_frames evs = [sample_frame] /\
    waiting_header self' = 0 /\ read_buffer self' = [].
Proof.
  assert (Hg : Forall (fun b => b <> HEADER_CHAR) [x00; xff; x41])
    by (repeat constructor; discriminate).
  split; [reflexivity|]. split; [exact Hg|]. split; [reflexivity|].
  exact (sync_recovery sample_topics [x00; xff; x41] sample_frame
           eq_refl Hg eq_refl).
Defined.

(** C4, no false split. Once the header count is 2 every byte is appended
    to the buffer, whatever its value: below five bytes the buffer grows by
    that byte and nothing else happens, and the fifth byte completes the
    frame made of the buffer and that byte. The seven bytes that encode
    identifier 0x40 with payload 40 00 00 00 report exactly one frame, with
    that identifier and payload. *)
Theorem no_false_split (topics : lookup)
    (Htyped : table_typed (lookup_table topics) = true) :
  (forall (self : bridge) (b : byte),
      topics_lookup self = topics ->
      waiting_header self = 2 ->
      (List.length (read_buffer self) <= 4)%nat ->
      exists evs self',
        parse_FTMQ self b = (evs, Returned self') /\
        (((List.length (read_buffer self) < 4)%nat /\ evs = [] /\
          read_buffer self' = read_buffer self ++ [b] /\
          waiting_header self' = 2) \/
         ((List.length (read_buffer self) = 4)%nat /\
          exists id value,
            read_buffer self ++ [b] = id :: value /\
            emitted_frames evs = [Frame id value] /\
            self' = init topics))) /\
  (let f := Frame x40 [x40; x00; x00; x00] in
   wire f = [x40; x40; x40; x40; x00; x00; x00] /\
   exists evs,
     poll_FTMQ (init topics) (wire f) = (evs, Returned (init topics)) /\
     emitted_frames evs = [f]).
Proof.
  split.
  - intros self b Htab Hwh Hlen.
    destruct (Nat.eq_dec (List.length (read_buffer self)) 4) as [Hfull|Hpart].
    + destruct (read_buffer self) as [|id rest] eqn:Ebuf; [discriminate Hfull|].
      assert (Hval : List.length (rest ++ [b]) = 4%nat).
      { rewrite length_app. cbn [List.length] in *. lia. }
      rewrite (parse_complete self b id (rest ++ [b]))
        by (try lia; try assumption; rewrite Ebuf; reflexivity).
      cbv zeta. rewrite Htab.
      destruct (publish_matching_typed _ id _ None Htyped Hval)
        as (evs & -> & _ & Hf & _).
      eexists _, _. split; [reflexivity|]. right. split; [exact Hfull|].
      exists id, (rest ++ [b]). split; [reflexivity|].
      cbn [emitted_frames]. rewrite Hf. now split.
    + rewrite parse_collect
        by (try lia; rewrite length_app; unfold FTMQ_PKT_LEN; cbn [List.length]; lia).
      eexists _, _. split; [reflexivity|]. left.
      repeat split; [lia|assumption].
  - cbv zeta. split; [reflexivity|].
    destruct (poll_wire_typed topics (Frame x40 [x40; x00; x00; x00])
                Htyped eq_refl) as (evs & E & Hf & _).
    exists evs. now split.
Qed.

Lemma no_false_split_witness :
  table_typed (lookup_table sample_topics) = true /\
  exists evs,
    poll_FTMQ (init sample_topics) [x40; x40; x40; x40; x00; x00; x00]
      = (evs, Returned (init sample_topics)) /\
    emitted_frames evs = [Frame x40 [x40; x00; x00; x00]].
Proof.
  split; [reflexivity|].
  exact (proj2 (proj2 (no_false_split sample_topics eq_refl))).
Defined.

(** C10. The two header bytes need not be adjacent: while the header count
    is 1 a byte other than 0x40 is dropped and the count stays 1, so the
    input 0x40, X, 0x40, id, p1, p2, p3, p4 with X other than 0x40 reports
    exactly one frame, with identifier id and payload p1 p2 p3 p4. *)
Theorem header_bytes_need_not_be_adjacent (topics : lookup) (x : byte)
    (f : frame)
    (Htyped : table_typed (lookup_table topics) = true)
    (Hx : x <> HEADER_CHAR)
    (Hlen : List.length (frame_payload f) = 4%nat) :
  parse_FTMQ (set_waiting_header (init topics) 1) x =
    ([], Returned (set_waiting_header (init topics) 1)) /\
  exists evs,
    poll_FTMQ (init topics)
      ([HEADER_CHAR; x; HEADER_CHAR; identifier f] ++ frame_payload f)
      = (evs, Returned (init topics)) /\
    emitted_frames evs = [f].
Proof.
  split.
  - apply parse_discard; [cbn; lia|exact Hx].
  - destruct (poll_wire_typed topics f Htyped Hlen) as (evs & E & Hf & _).
    exists evs. split; [|exact Hf].
    set (s1 := set_waiting_header (init topics) 1).
    assert (H1 : poll_FTMQ (init topics) [HEADER_CHAR] = ([], Returned s1)).
    { cbn [poll_FTMQ]. rewrite parse_sync by (cbn; lia). reflexivity. }
    assert (H2 : poll_FTMQ (init topics) [HEADER_CHAR; x] = ([], Returned s1)).
    { cbn [poll_FTMQ]. rewrite parse_sync by (cbn; lia).
      change (set_waiting_header (init topics) (waiting_header (init topics) + 1))
        with s1.
      rewrite parse_discard by (cbn; lia || assumption). reflexivity. }
    change (wire f)
      with ([HEADER_CHAR] ++ ([HEADER_CHAR; identifier f] ++ frame_payload f)) in E.
    change ([HEADER_CHAR; x; HEADER_CHAR; identifier f] ++ frame_payload f)
      with ([HEADER_CHAR; x] ++ ([HEADER_CHAR; identifier f] ++ frame_payload f)).
    rewrite poll_app, H1 in E. rewrite poll_app, H2. exact E.
Qed.

Lemma header_bytes_need_not_be_adjacent_witness :
  table_typed (lookup_table sample_topics) = true /\
  x99 <> HEADER_CHAR /\
  List.length (frame_payload sample_frame) = 4%nat /\
  exists evs,
    poll_FTMQ (init sample_topics)
      [x40; x99; x40; x01; x2a; x00; x00; x00]
      = (evs, Returned (init sample_topics)) /\
    emitted_frames evs = [sample_frame].
Proof.
  assert (Hx : x99 <> HEADER_CHAR) by discriminate.
  split; [reflexivity|]. split; [exact Hx|]. split; [reflexivity|].
  exact (proj2 (header_bytes_need_not_be_adjacent sample_topics x99
                  sample_frame eq_refl Hx eq_refl)).
Defined.

(** C6, the parser invariant. Whatever bytes are fed from the state between
    frames, after each byte (that is, after every prefix of the input) the
    call has returned, the header count is 0, 1 or 2 and the buffer holds at
    most 5 bytes; and a step that reports a frame leaves the header count
    at 0 and the buffer empty, so that bytes other than the header byte are
    dropped again: the next frame needs two header bytes of its own. *)
Theorem parser_invariant (topics : lookup) (data : list byte) (n : nat)
    (Htyped : table_typed (lookup_table topics) = true) :
  exists evs self,
    poll_FTMQ (init topics) (firstn n data) = (evs, Returned self) /\
    (waiting_header self = 0 \/ waiting_header self = 1 \/
     waiting_header self = 2) /\
    (List.length (read_buffer self) <= 5)%nat /\
    forall b : byte,
      exists evs' self',
        parse_FTMQ self b = (evs', Returned self') /\
        (emitted_frames evs' <> [] ->
         self' = init topics /\
         waiting_header self' = 0 /\ read_buffer self' = [] /\
         forall b' : byte,
           b' <> HEADER_CHAR -> parse_FTMQ self' b' = ([], Returned self')).
Proof.
  destruct (poll_inv topics (firstn n data) Htyped (init topics)
              (init_inv topics))
    as (evs & self & E & Hinv).
  exists evs, self. split; [exact E|].
  split; [|split].
  - destruct Hinv as [_ [[[H|H] _]|[H _]]]; auto.
  - destruct Hinv as [_ [[_ H]|[_ H]]]; [rewrite H; cbn|]; lia.
  - intros b.
    destruct (parse_inv topics self b Htyped Hinv) as (evs' & self' & E' & _ & Hr).
    exists evs', self'. split; [exact E'|].
    intros Hne. rewrite (Hr Hne). repeat split.
    intros b' Hb'. apply parse_discard; [cbn; lia|exact Hb'].
Qed.

Lemma parser_invariant_witness :
  table_typed (lookup_table sample_topics) = true /\
  exists evs self,
    poll_FTMQ (init sample_topics) [x40; x40; x01; x2a] = (evs, Returned self) /\
    (waiting_header self = 0 \/ waiting_header self = 1 \/
     waiting_header self = 2) /\
    (List.length (read_buffer self) <= 5)%nat.
Proof.
  split; [reflexivity|].
  destruct (parser_invariant sample_topics
              [x40; x40; x01; x2a; x00; x00; x00] 4 eq_refl)
    as (evs & self & E & Hwh & Hlen & _).
  exists evs, self. repeat split; assumption.
Defined.

(** C7, partial delivery. Feeding the chunks of any partition of a byte
    sequence in successive calls gives the trace and the final state of one
    call on the whole sequence; and two back-to-back frames fed one byte a
    call report exactly those two frames, in order. *)
Theorem chunking_insensitive (topics : lookup) (f1 f2 : frame)
    (Htyped : table_typed (lookup_table topics) = true)
    (Hlen1 : List.length (frame_payload f1) = 4%nat)
    (Hlen2 : List.length (frame_payload f2) = 4%nat) :
  (forall (self : bridge) (chunks : list (list byte)),
      poll_chunks self chunks = poll_FTMQ self (List.concat chunks)) /\
  (let stream := wire f1 ++ wire f2 in
   poll_chunks (init topics) (map (fun b => [b]) stream) =
     poll_FTMQ (init topics) stream /\
   exists evs,
     poll_chunks (init topics) (map (fun b => [b]) stream) =
       (evs, Returned (init topics)) /\
     emitted_frames evs = [f1; f2]).
Proof.
  split; [exact poll_chunks_concat|].
  cbv zeta.
  assert (Hsame : poll_chunks (init topics) (map (fun b => [b]) (wire f1 ++ wire f2))
                  = poll_FTMQ (init topics) (wire f1 ++ wire f2)).
  { now rewrite poll_chunks_concat, concat_singletons. }
  split; [exact Hsame|]. rewrite Hsame.
  destruct (poll_wire_typed topics f1 Htyped Hlen1) as (evs1 & E1 & Hf1 & _).
  destruct (poll_wire_typed topics f2 Htyped Hlen2) as (evs2 & E2 & Hf2 & _).
  rewrite poll_app, E1, E2. exists (evs1 ++ evs2). split; [reflexivity|].
  rewrite emitted_frames_app, Hf1, Hf2. reflexivity.
Qed.

Lemma chunking_insensitive_witness :
  table_typed (lookup_table sample_topics) = true /\
  List.length (frame_payload sample_frame) = 4%nat /\
  List.length (frame_payload other_frame) = 4%nat /\
  exists evs,
    poll_chunks (init sample_topics)
      (map (fun b => [b]) (wire sample_frame ++ wire other_frame))
      = (evs, Returned (init sample_topics)) /\
    emitted_frames evs = [sample_frame; other_frame].
Proof.
  split; [reflexivity|]. split; [reflexivity|]. split; [reflexivity|].
  exact (proj2 (proj2 (chunking_insensitive sample_topics sample_frame
                         other_frame eq_refl eq_refl eq_refl))).
Defined.

(** ** The table scans *)

Lemma matching_none (items : list (string * entry)) (id : byte) :
  (forall t0 t1, In (t0, t1) items -> entry_id t1 <> Z_of_byte id) ->
  matching items id = [].
Proof.
  intros H. induction items as [|[t0 t1] rest IH]; [reflexivity|].
  cbn [matching filter snd].
  destruct (entry_id t1 =? Z_of_byte id) eqn:E.
  - apply Z.eqb_eq in E. exfalso. apply (H t0 t1); [now left|exact E].
  - apply IH. intros u0 u1 Hin. apply (H u0 u1). now right.
Qed.

Lemma first_topic_none (items : list (string * entry)) (t : string) :
  (forall t0 t1, In (t0, t1) items -> t0 <> t) ->
  first_topic items t = None.
Proof.
  intros H. induction items as [|[t0 t1] rest IH]; [reflexivity|].
  cbn [first_topic find fst].
  destruct (String.eqb t0 t) eqn:E.
  - apply String.eqb_eq in E. exfalso. apply (H t0 t1); [now left|exact E].
  - apply IH. intros u0 u1 Hin. apply (H u0 u1). now right.
Qed.

Section OnMessageFacts.

Variable json_loads : list byte -> result pyval.

Lemma on_message_items_none (items : list (string * entry)) (self : bridge)
    (msg : message) :
  first_topic items (topic msg) = None ->
  on_message_items json_loads items self msg = ([], Returned self).
Proof.
  induction items as [|[t0 t1] rest IH]; intros H; [reflexivity|].
  cbn [first_topic find fst on_message_items] in *.
  destruct (String.eqb t0 (topic msg)); [discriminate H|]. now apply IH.
Qed.

Lemma on_message_items_first (items : list (string * entry)) (self : bridge)
    (msg : message) (t0 : string) (t1 : entry) :
  first_topic items (topic msg) = Some (t0, t1) ->
  on_message_items json_loads items self msg =
    match checked_byte (entry_id t1) with
    | inl e => ([], Raised e self)
    | inr id =>
        match try_write json_loads t1 id msg with
        | (evs, Some e) => (evs ++ [Print_unexpected_error e], Returned self)
        | (evs, None) => (evs, Returned self)
        end
    end.
Proof.
  induction items as [|[u0 u1] rest IH]; intros H; [discriminate H|].
  cbn [first_topic find fst on_message_items] in *.
  destruct (String.eqb u0 (topic msg)).
  - injection H as -> ->. reflexivity.
  - now apply IH.
Qed.

End OnMessageFacts.

Lemma checked_byte_ok (z : Z) :
  0 <= z < 256 -> checked_byte z = inr (byte_of_Z z).
Proof.
  intros H. unfold checked_byte.
  destruct (0 <=? z) eqn:E1; [|apply Z.leb_gt in E1; lia].
  destruct (z <? 256) eqn:E2; [|apply Z.ltb_ge in E2; lia].
  reflexivity.
Qed.

(** C8, unknown identifier and unknown topic. A complete frame whose
    identifier is the id of no table entry is reported and publishes
    nothing, and the parser is between frames again; a broker message whose
    topic is the key of no table entry writes nothing to the serial port.
    Both calls return: neither non-match is an error. *)
Theorem unknown_ignored (json_loads : list byte -> result pyval)
    (topics : lookup) (f : frame) (self : bridge) (msg : message)
    (Hlen : List.length (frame_payload f) = 4%nat)
    (Hid : forall t0 t1, In (t0, t1) (lookup_table topics) ->
                         entry_id t1 <> Z_of_byte (identifier f))
    (Htopic : forall t0 t1, In (t0, t1) (lookup_table (topics_lookup self)) ->
                            t0 <> topic msg) :
  (exists evs,
      poll_FTMQ (init topics) (wire f) = (evs, Returned (init topics)) /\
      emitted_frames evs = [f] /\ publishes evs = []) /\
  (exists evs,
      on_message json_loads self msg = (evs, Returned self) /\
      serial_writes evs = [] /\
      evs = [Print_on_msg (topic msg) (payload msg)]).
Proof.
  split.
  - rewrite (poll_wire _ _ Hlen). cbv zeta.
    rewrite publish_matching_none by (apply matching_none; exact Hid).
    eexists. split; [reflexivity|]. destruct f as [id value]. now split.
  - unfold on_message.
    rewrite on_message_items_none by (apply first_topic_none; exact Htopic).
    eexists. split; [reflexivity|]. now split.
Qed.

Lemma unknown_ignored_witness :
  let msg := Message "home/unknown" [] in
  List.length (frame_payload stray_frame) = 4%nat /\
  (exists evs,
      poll_FTMQ (init sample_topics) (wire stray_frame)
        = (evs, Returned (init sample_topics)) /\
      emitted_frames evs = [stray_frame] /\ publishes evs = []) /\
  (exists evs,
      on_message loads_refuse (init sample_topics) msg
        = (evs, Returned (init sample_topics)) /\
      serial_writes evs = [] /\
      evs = [Print_on_msg (topic msg) (payload msg)]).
Proof.
  intros msg. split; [reflexivity|].
  apply (unknown_ignored loads_refuse sample_topics stray_frame
           (init sample_topics) msg eq_refl).
  - intros t0 t1 [H|[H|[H|[]]]]; injection H as _ <-; discriminate.
  - intros t0 t1 [H|[H|[H|[]]]]; injection H as <- _; discriminate.
Defined.

(** C1, as the code has it. The loop of [parse_FTMQ] over the table has no
    [break]: with a table of the three known types, a complete frame
    publishes once for every entry whose id is the frame's identifier, in
    table order, each time to that entry's topic and under that entry's
    field name, with the payload decoded by that entry's type. The first
    publish is therefore the one of the first matching entry, and there are
    as many publishes as matching entries. *)
Theorem publish_every_match (topics : lookup) (f : frame)
    (Htyped : table_typed (lookup_table topics) = true)
    (Hlen : List.length (frame_payload f) = 4%nat) :
  exists evs,
    poll_FTMQ (init topics) (wire f) = (evs, Returned (init topics)) /\
    emitted_frames evs = [f] /\
    publishes evs =
      map (fun it =>
             (fst it,
              PDict [(entry_name (snd it),
                      decoded (entry_type (snd it)) (frame_payload f))]))
          (matching (lookup_table topics) (identifier f)) /\
    List.length (publishes evs) =
      List.length (matching (lookup_table topics) (identifier f)) /\
    (forall it rest,
        matching (lookup_table topics) (identifier f) = it :: rest ->
        exists d more,
          publishes evs = (fst it, PDict [(entry_name (snd it), d)]) :: more).
Proof.
  destruct (poll_wire_typed topics f Htyped Hlen) as (evs & E & Hf & Hp & _).
  exists evs. split; [exact E|]. split; [exact Hf|].
  split; [exact Hp|]. split.
  - rewrite Hp. apply length_map.
  - intros it rest Hm. rewrite Hp, Hm. cbn [map].
    eexists _, _. reflexivity.
Qed.

Lemma publish_every_match_witness :
  let f := Frame x07 [x05; x00; x00; x00] in
  table_typed (lookup_table shared_id_topics) = true /\
  List.length (frame_payload f) = 4%nat /\
  exists evs,
    poll_FTMQ (init shared_id_topics) (wire f)
      = (evs, Returned (init shared_id_topics)) /\
    publishes evs =
      [("plant/level", PDict [("level", PInt 5)]);
       ("mirror/level", PDict [("copy", PInt 5)])].
Proof.
  intros f. split; [reflexivity|]. split; [reflexivity|].
  destruct (publish_every_match shared_id_topics f eq_refl eq_refl)
    as (evs & E & _ & Hp & _).
  exists evs. split; [exact E|]. rewrite Hp. reflexivity.
Defined.

(** C1, as stated, fails: with two entries that share identifier 7, the
    frame with that identifier publishes twice, once per entry, and not
    only for the first one. *)
Lemma first_match_only_fails :
  let f := Frame x07 [x05; x00; x00; x00] in
  let evs := fst (poll_FTMQ (init shared_id_topics) (wire f)) in
  publishes evs =
    [("plant/level", PDict [("level", PInt 5)]);
     ("mirror/level", PDict [("copy", PInt 5)])] /\
  publishes evs <> [("plant/level", PDict [("level", PInt 5)])] /\
  List.length (publishes evs) <> 1%nat.
Proof.
  cbv zeta.
  assert (E : publishes (fst (poll_FTMQ (init shared_id_topics)
                                (wire (Frame x07 [x05; x00; x00; x00])))) =
              [("plant/level", PDict [("level", PInt 5)]);
               ("mirror/level", PDict [("copy", PInt 5)])])
    by (vm_compute; reflexivity).
  rewrite E. split; [reflexivity|]. split; discriminate.
Qed.

(** ** Broker to serial *)

(** Values that the conversions refuse: an integer outside the signed
    32-bit range or a value that is no integer for ['int32'], a finite
    double beyond the float range for ['float'], a list of less than four
    items or with an item outside [range(256)] for ['array']. *)
Lemma encode_value_refuses :
  (forall z, z < - 2 ^ 31 \/ 2 ^ 31 <= z ->
             encode_value "int32" (PInt z) = inl StructError) /\
  (forall v, index v = None -> encode_value "int32" v = inl StructError) /\
  encode_value "float" (PFloat (S754_finite false 4503599627370496 76))
    = inl OverflowError /\
  (forall l, (List.length l < 4)%nat ->
             exists e, encode_value "array" (PList l) = inl e) /\
  (forall z rest, z < 0 \/ 256 <= z ->
                  encode_value "array" (PList (PInt z :: rest)) = inl ValueError).
Proof.
  split; [|split; [|split; [|split]]].
  - intros z Hz. unfold encode_value, pack_i. cbn [String.eqb index bind].
    destruct (- 2 ^ 31 <=? z) eqn:E1; [|reflexivity].
    destruct (z <? 2 ^ 31) eqn:E2; [|reflexivity].
    apply Z.leb_le in E1. apply Z.ltb_lt in E2. lia.
  - intros v Hv. unfold encode_value, pack_i. cbn [String.eqb bind].
    now rewrite Hv.
  - vm_compute. reflexivity.
  - intros l Hl. unfold encode_value, bytes_of_array.
    cbn [String.eqb Ascii.eqb Bool.eqb].
    destruct l as [|a [|b [|c [|d rest]]]]; cbn [List.length] in Hl; try lia;
      cbn [getitem_int nth_error bind ret raise].
    + eexists; reflexivity.
    + destruct (index a) as [za|]; [destruct (checked_byte za)|];
        eexists; reflexivity.
    + destruct (index a) as [za|]; [destruct (checked_byte za)|];
        [eexists; reflexivity| |eexists; reflexivity].
      cbn [bind].
      destruct (index b) as [zb|]; [destruct (checked_byte zb)|];
        eexists; reflexivity.
    + destruct (index a) as [za|]; [destruct (checked_byte za)|];
        [eexists; reflexivity| |eexists; reflexivity].
      cbn [bind].
      destruct (index b) as [zb|]; [destruct (checked_byte zb)|];
        [eexists; reflexivity| |eexists; reflexivity].
      cbn [bind].
      destruct (index c) as [zc|]; [destruct (checked_byte zc)|];
        eexists; reflexivity.
  - intros z rest Hz. unfold encode_value, bytes_of_array, checked_byte.
    cbn [String.eqb Ascii.eqb Bool.eqb getitem_int nth_error bind ret index].
    destruct (0 <=? z) eqn:E1; [|reflexivity].
    destruct (z <? 256) eqn:E2; [|reflexivity].
    apply Z.leb_le in E1. apply Z.ltb_lt in E2. lia.
Qed.

(** C5. For a message whose topic is in the table, a failure of the
    translation (the payload is not JSON, the parsed object has no value
    under the entry's field name, or [struct.pack] or the bytearray
    assignment refuses the value for the entry's type) is caught in the
    handler: it logs the exception and returns, nothing is written to the
    serial port, and the bridge object, with its parser state and its
    lookup table, is as it was. *)
Theorem translation_failure_is_caught
    (json_loads : list byte -> result pyval)
    (self : bridge) (msg : message) (t0 : string) (t1 : entry)
    (Hmatch : first_topic (lookup_table (topics_lookup self)) (topic msg)
              = Some (t0, t1))
    (Hid : 0 <= entry_id t1 < 256)
    (Hfail :
       (exists e, json_loads (payload msg) = inl e) \/
       (exists obj e,
           json_loads (payload msg) = inr obj /\
           getitem_str obj (entry_name t1) = inl e) \/
       (exists obj value e,
           json_loads (payload msg) = inr obj /\
           getitem_str obj (entry_name t1) = inr value /\
           encode_value (entry_type t1) value = inl e)) :
  exists e self',
    on_message json_loads self msg =
      ([Print_on_msg (topic msg) (payload msg); Print_unexpected_error e],
       Returned self') /\
    serial_writes (fst (on_message json_loads self msg)) = [] /\
    self' = self /\
    waiting_header self' = waiting_header self /\
    read_buffer self' = read_buffer self /\
    topics_lookup self' = topics_lookup self.
Proof.
  assert (Htry : exists e,
             try_write json_loads t1 (byte_of_Z (entry_id t1)) msg
             = ([], Some e)).
  { unfold try_write.
    destruct Hfail as [[e E]|[(obj & e & E1 & E2)|(obj & v & e & E1 & E2 & E3)]].
    - exists e. rewrite E. reflexivity.
    - exists e. rewrite E1. cbn [bind]. rewrite E2. reflexivity.
    - exists e. rewrite E1. cbn [bind]. rewrite E2. cbn [bind].
      rewrite E3. reflexivity. }
  destruct Htry as [e Htry].
  assert (E : on_message json_loads self msg =
              ([Print_on_msg (topic msg) (payload msg);
                Print_unexpected_error e], Returned self)).
  { unfold on_message.
    rewrite (on_message_items_first json_loads _ self msg t0 t1 Hmatch).
    rewrite (checked_byte_ok _ Hid), Htry. reflexivity. }
  exists e, self. rewrite E. repeat split.
Qed.

Lemma translation_failure_is_caught_witness :
  let self := {| topics_lookup := sample_topics;
                 read_buffer := [x01; x2a];
                 waiting_header := 2 |} in
  let msg := Message "home/setpoint" [] in
  let loads := loads_constant (PDict [("value", PInt (2 ^ 31))]) in
  first_topic (lookup_table (topics_lookup self)) (topic msg)
    = Some ("home/setpoint", Entry 1 "int32" "value") /\
  exists e self',
    on_message loads self msg =
      ([Print_on_msg (topic msg) (payload msg); Print_unexpected_error e],
       Returned self') /\
    self' = self.
Proof.
  intros self msg loads. split; [reflexivity|].
  destruct (translation_failure_is_caught loads self msg
              "home/setpoint" (Entry 1 "int32" "value") eq_refl)
    as (e & self' & E & _ & Hs & _).
  - cbn. lia.
  - right. right.
    exists (PDict [("value", PInt (2 ^ 31))]), (PInt (2 ^ 31)), StructError.
    repeat split; reflexivity.
  - exists e, self'. split; assumption.
Defined.

(** ** Type conversions *)

(** C9. The conversions are little-endian: the int32 value -1 is encoded as
    FF FF FF FF and those bytes decode to -1, and 0x01020304 is encoded
    least significant byte first; the float 3.5 is encoded as 00 00 60 40
    and decodes to 3.5 exactly; the array 1, 2, 3, 4 is encoded as
    01 02 03 04 and decodes to the same four values in the same order. *)
Theorem little_endian_conversions :
  encode_value "int32" (PInt (-1)) = inr (Bound [xff; xff; xff; xff]) /\
  decode_value "int32" [xff; xff; xff; xff] None = inr (PInt (-1)) /\
  encode_value "int32" (PInt 16909060) = inr (Bound [x04; x03; x02; x01]) /\
  decode_value "int32" [x04; x03; x02; x01] None = inr (PInt 16909060) /\
  encode_value "float" (PFloat three_and_a_half)
    = inr (Bound [x00; x00; x60; x40]) /\
  decode_value "float" [x00; x00; x60; x40] None
    = inr (PFloat three_and_a_half) /\
  encode_value "array" (PList [PInt 1; PInt 2; PInt 3; PInt 4])
    = inr (Bound [x01; x02; x03; x04]) /\
  decode_value "array" [x01; x02; x03; x04] None
    = inr (PList [PInt 1; PInt 2; PInt 3; PInt 4]).
Proof.
  repeat split; vm_compute; reflexivity.
Qed.


(** ** Binary floating-point numbers *)

Section Iterations.

Context {A : Type} (f : A -> A).

Lemma iter_pos_shift (n : positive) (x : A) :
  iter_pos f n (f x) = f (iter_pos f n x).
Proof.
  revert x. induction n as [n IH|n IH|]; intros x; cbn [iter_pos].
  - now rewrite !IH.
  - now rewrite !IH.
  - reflexivity.
Qed.

Lemma iter_pos_iter (n : positive) (x : A) :
  iter_pos f n x = Pos.iter f x n.
Proof.
  revert x. induction n as [n IH|n IH|]; intros x; cbn [iter_pos Pos.iter].
  - now rewrite !iter_pos_shift, !IH.
  - now rewrite !IH.
  - reflexivity.
Qed.

End Iterations.

Lemma digits2_pos_size (p : positive) : digits2_pos p = Pos.size p.
Proof.
  induction p as [p IH|p IH|]; cbn [digits2_pos Pos.size]; now rewrite ?IH.
Qed.

(** A positive number of [d] binary digits lies in [2^(d-1), 2^d). *)
Lemma digits2_pos_bounds (p : positive) :
  2 ^ (Zpos (digits2_pos p) - 1) <= Zpos p < 2 ^ Zpos (digits2_pos p).
Proof.
  rewrite digits2_pos_size.
  pose proof (Pos.size_gt p) as Hgt. pose proof (Pos.size_le p) as Hle.
  apply Pos2Z.pos_lt_pos in Hgt. apply Pos2Z.pos_le_pos in Hle.
  rewrite Pos2Z.inj_pow in Hgt, Hle.
  change (Zpos p~0) with (2 * Zpos p) in Hle.
  split; [|exact Hgt].
  replace (Zpos (Pos.size p)) with (Z.succ (Zpos (Pos.size p) - 1)) in Hle by lia.
  rewrite Z.pow_succ_r in Hle by lia. lia.
Qed.

Lemma iter_xO_value (p n : positive) :
  Zpos (Pos.iter xO p n) = Zpos p * 2 ^ Zpos n.
Proof.
  induction n as [|n IH] using Pos.peano_ind.
  - cbn [Pos.iter]. lia.
  - rewrite Pos.iter_succ, Pos2Z.inj_succ, Z.pow_succ_r by lia.
    change (Zpos (Pos.iter xO p n)~0) with (2 * Zpos (Pos.iter xO p n)).
    rewrite IH. ring.
Qed.

Lemma iter_xO_digits (p n : positive) :
  digits2_pos (Pos.iter xO p n) = (digits2_pos p + n)%positive.
Proof.
  induction n as [|n IH] using Pos.peano_ind.
  - cbn [Pos.iter digits2_pos]. lia.
  - rewrite Pos.iter_succ. cbn [digits2_pos]. rewrite IH. lia.
Qed.

(** Shifting out the zeros that a shift to the left brought in is exact. *)
Lemma shr_iter_xO (p n : positive) :
  iter_pos shr_1 n (Build_shr_record (Zpos (Pos.iter xO p n)) false false)
  = Build_shr_record (Zpos p) false false.
Proof.
  rewrite iter_pos_iter.
  induction n as [|n IH] using Pos.peano_ind.
  - reflexivity.
  - rewrite Pos.iter_succ_r, Pos.iter_succ. cbn [shr_1 orb]. exact IH.
Qed.

(** A positive multiple of [2^n] is some number shifted left [n] times. *)
Lemma multiple_is_shift (m n : positive) :
  Zpos m mod 2 ^ Zpos n = 0 ->
  exists p, m = Pos.iter xO p n.
Proof.
  intros H. apply Z.mod_divide in H; [|lia]. destruct H as [q Hq].
  assert (Hpow : 0 < 2 ^ Zpos n) by (apply Z.pow_pos_nonneg; lia).
  destruct q as [|p|p]; try lia.
  exists p. apply Pos2Z.inj. now rewrite iter_xO_value.
Qed.

Section Formats.

Variables prec emax : Z.

(** Rounding a number that is already canonical in the format changes
    nothing. *)
Lemma binary_round_aux_canonical (s : bool) (m : positive) (e : Z) :
  bounded prec emax m e = true ->
  binary_round_aux prec emax s (Zpos m) e loc_Exact = S754_finite s m e.
Proof.
  unfold bounded, canonical_mantissa. intros H.
  apply andb_prop in H as [Hc He]. apply Z.eqb_eq in Hc.
  unfold binary_round_aux, shr_fexp.
  cbn [Zdigits2 shr_record_of_loc]. rewrite Hc, Z.sub_diag.
  cbn [shr shr_m loc_of_shr_record round_nearest_even Zdigits2].
  rewrite Hc, Z.sub_diag. cbn [shr shr_m]. now rewrite He.
Qed.

End Formats.

(** The shape of a finite double that a float holds exactly: 53 digits, the
    low [k] of them zero, where [k] is the distance between the exponents
    of the two formats at this magnitude. *)
Lemma float32_exact_shape (s : bool) (m : positive) (e : Z) :
  float32_exact (S754_finite s m e) = true ->
  exists m' k : positive,
    m = Pos.iter xO m' k /\
    Zpos k = Z.max 29 (- 149 - e) /\
    Zpos (digits2_pos m) = 53 /\
    Zpos (digits2_pos m') = 53 - Zpos k /\
    - 1074 <= e <= 75.
Proof.
  cbn [float32_exact]. intros H.
  apply andb_prop in H as [H He32]. apply andb_prop in H as [Hb Hmod].
  apply Z.leb_le in He32. apply Z.eqb_eq in Hmod.
  unfold bounded, canonical_mantissa, fexp, emin in Hb.
  apply andb_prop in Hb as [Hc He64].
  apply Z.eqb_eq in Hc. apply Z.leb_le in He64.
  destruct (Z.max 29 (- 149 - e)) as [|k|k] eqn:Ek; try lia.
  destruct (multiple_is_shift m k Hmod) as [m' Hm].
  exists m', k. split; [exact Hm|]. split; [reflexivity|].
  assert (Hd : Zpos (digits2_pos m) = Zpos (digits2_pos m') + Zpos k).
  { rewrite Hm, iter_xO_digits. lia. }
  pose proof (Pos2Z.is_pos (digits2_pos m')).
  lia.
Qed.

Lemma float32_of_double_exact (s : bool) (m' k : positive) (e : Z) :
  Zpos k = Z.max 29 (- 149 - e) ->
  Zpos (digits2_pos m') = 53 - Zpos k ->
  e <= 75 ->
  float32_of_double (S754_finite s (Pos.iter xO m' k) e)
  = S754_finite s m' (e + Zpos k).
Proof.
  intros Hk Hd He.
  assert (Hdm : Zpos (digits2_pos (Pos.iter xO m' k)) = 53).
  { rewrite iter_xO_digits. lia. }
  assert (Hf : fexp 24 128 (53 + e) = e + Zpos k).
  { unfold fexp, emin. lia. }
  unfold float32_of_double, binary_round.
  rewrite Hdm, Hf. unfold shl_align.
  replace (e + Zpos k - e) with (Zpos k) by lia.
  unfold binary_round_aux, shr_fexp. cbn [Zdigits2 shr_record_of_loc].
  rewrite Hdm, Hf.
  replace (e + Zpos k - e) with (Zpos k) by lia.
  cbn [shr]. rewrite shr_iter_xO.
  cbn [shr_m loc_of_shr_record round_nearest_even Zdigits2].
  replace (Zpos (digits2_pos m') + (e + Zpos k)) with (53 + e) by lia.
  rewrite Hf, Z.sub_diag. cbn [shr shr_m].
  replace (e + Zpos k <=? 128 - 24) with true by (symmetry; apply Z.leb_le; lia).
  reflexivity.
Qed.

Lemma double_of_float32_exact (s : bool) (m' k : positive) (e : Z) :
  Zpos (digits2_pos m') = 53 - Zpos k ->
  - 1074 <= e <= 1024 - 53 ->
  double_of_float32 (S754_finite s m' (e + Zpos k))
  = S754_finite s (Pos.iter xO m' k) e.
Proof.
  intros Hd He.
  assert (Hf : fexp 53 1024 (53 + e) = e).
  { unfold fexp, emin. lia. }
  unfold double_of_float32, binary_round.
  replace (Zpos (digits2_pos m') + (e + Zpos k)) with (53 + e) by lia.
  rewrite Hf. unfold shl_align.
  replace (e - (e + Zpos k)) with (Zneg k) by lia.
  apply binary_round_aux_canonical.
  unfold bounded, canonical_mantissa.
  rewrite iter_xO_digits.
  replace (Zpos (digits2_pos m' + k) + e) with (53 + e) by lia.
  rewrite Hf, Z.eqb_refl. apply Z.leb_le. lia.
Qed.

(** The three fields of a binary32 bit pattern. *)
Lemma float32_fields (s : bool) (ex frac : Z) :
  0 <= ex < 256 -> 0 <= frac < 2 ^ 23 ->
  let u := sign_bit s + ex * 2 ^ 23 + frac in
  0 <= u < 2 ^ 32 /\
  Z.testbit u 31 = s /\ (u / 2 ^ 23) mod 256 = ex /\ u mod 2 ^ 23 = frac.
Proof.
  intros Hex Hfrac u.
  assert (Hq : u / 2 ^ 23 = Z.b2z s * 256 + ex).
  { symmetry. apply (Z.div_unique _ _ _ frac); [lia|].
    unfold u, sign_bit. destruct s; cbn [Z.b2z]; lia. }
  assert (Hs : u / 2 ^ 31 = Z.b2z s).
  { symmetry. apply (Z.div_unique _ _ _ (ex * 2 ^ 23 + frac)); [lia|].
    unfold u, sign_bit. destruct s; cbn [Z.b2z]; lia. }
  split; [|split; [|split]].
  - unfold u, sign_bit. destruct s; lia.
  - rewrite <- (Z.add_0_l 31), <- Z.shiftr_spec, Z.shiftr_div_pow2 by lia.
    rewrite Hs, Z.bit0_odd. now destruct s.
  - rewrite Hq. symmetry. apply (Z.mod_unique _ _ (Z.b2z s)); lia.
  - symmetry. apply (Z.mod_unique _ _ (Z.b2z s * 256 + ex)); [lia|].
    unfold u, sign_bit. destruct s; cbn [Z.b2z]; lia.
Qed.

(** The encoding of a finite float is read back as that float. *)
Lemma float32_of_bits_of_float32 (s : bool) (m : positive) (e : Z) :
  bounded 24 128 m e = true ->
  let u := bits_of_float32 (S754_finite s m e) in
  0 <= u < 2 ^ 32 /\ float32_of_bits u = S754_finite s m e.
Proof.
  unfold bounded, canonical_mantissa, fexp, emin. intros H.
  apply andb_prop in H as [Hc He]. apply Z.eqb_eq in Hc. apply Z.leb_le in He.
  pose proof (digits2_pos_bounds m) as [Hlo Hhi].
  pose proof (Pos2Z.is_pos (digits2_pos m)) as Hpos.
  cbn [bits_of_float32]. cbv zeta.
  destruct (Zpos m <? 2 ^ 23) eqn:Esub.
  - (* subnormal *)
    apply Z.ltb_lt in Esub.
    assert (Hd : Zpos (digits2_pos m) <= 23).
    { destruct (Z_le_gt_dec (Zpos (digits2_pos m)) 23) as [|Hgt]; [assumption|].
      assert (2 ^ 23 <= 2 ^ (Zpos (digits2_pos m) - 1))
        by (apply Z.pow_le_mono_r; lia).
      lia. }
    assert (He' : e = - 149) by lia. subst e.
    destruct (float32_fields s 0 (Zpos m)) as (Hr & Hs & Hex & Hfr); [lia|lia|].
    rewrite Z.mul_0_l, Z.add_0_r in Hr, Hs, Hex, Hfr.
    split; [exact Hr|].
    unfold float32_of_bits. rewrite Hs, Hex, Hfr. reflexivity.
  - (* normal *)
    apply Z.ltb_ge in Esub.
    assert (Hd : Zpos (digits2_pos m) = 24).
    { destruct (Z_le_gt_dec 24 (Zpos (digits2_pos m))) as [|Hlt]; [lia|].
      assert (2 ^ Zpos (digits2_pos m) <= 2 ^ 23)
        by (apply Z.pow_le_mono_r; lia).
      lia. }
    rewrite Hd in Hhi.
    destruct (float32_fields s (e + 150) (Zpos m - 2 ^ 23))
      as (Hr & Hs & Hex & Hfr); [lia|lia|].
    split; [exact Hr|].
    unfold float32_of_bits. rewrite Hs, Hex, Hfr.
    replace (e + 150 =? 0) with false by (symmetry; apply Z.eqb_neq; lia).
    replace (e + 150 =? 255) with false by (symmetry; apply Z.eqb_neq; lia).
    replace (Zpos m - 2 ^ 23 + 2 ^ 23) with (Zpos m) by lia.
    replace (e + 150 - 150) with e by lia. reflexivity.
Qed.

(** [struct.pack('<f', x)] followed by [struct.unpack('<f', _)] gives [x]
    back when a float holds [x] exactly. *)
Lemma unpack_pack_f (f : spec_float) :
  float32_exact f = true ->
  exists data,
    pack_f (PFloat f) = inr data /\ List.length data = 4%nat /\
    unpack_f data = inr f.
Proof.
  intros Hex.
  destruct f as [s|s| |s m e].
  - destruct s; eexists; repeat split; vm_compute; reflexivity.
  - destruct s; eexists; repeat split; vm_compute; reflexivity.
  - eexists; repeat split; vm_compute; reflexivity.
  - destruct (float32_exact_shape s m e Hex) as (m' & k & Hm & Hk & Hdm & Hdm' & He).
    assert (He32 : e <= 75).
    { cbn [float32_exact] in Hex. apply andb_prop in Hex as [_ H].
      apply Z.leb_le in H. lia. }
    assert (Hb : bounded 24 128 m' (e + Zpos k) = true).
    { unfold bounded, canonical_mantissa, fexp, emin.
      apply andb_true_intro. split; [apply Z.eqb_eq|apply Z.leb_le]; lia. }
    destruct (float32_of_bits_of_float32 s m' (e + Zpos k) Hb) as [Hr Hbits].
    exists (le_bytes 4 (bits_of_float32 (S754_finite s m' (e + Zpos k)))).
    split; [|split].
    + unfold pack_f. cbn [as_double bind ret]. subst m.
      rewrite (float32_of_double_exact s m' k e Hk Hdm' He32). reflexivity.
    + apply le_bytes_length.
    + unfold unpack_f. rewrite le_bytes_length. cbn [Nat.eqb].
      rewrite le_value_le_bytes.
      change (256 ^ Z.of_nat 4) with (2 ^ 32).
      rewrite Z.mod_small by exact Hr.
      rewrite Hbits, Hm.
      rewrite (double_of_float32_exact s m' k e Hdm'); [reflexivity|].
      cbn [float32_exact] in Hex.
      apply andb_prop in Hex as [H _]. apply andb_prop in H as [H _].
      unfold bounded in H. apply andb_prop in H as [_ H].
      apply Z.leb_le in H. lia.
Qed.

(** [float32_exact] picks out the doubles that are the exact conversion of
    some float. *)
Lemma float32_exact_iff (f : spec_float) :
  float32_exact f = true <->
  exists g, valid_binary 24 128 g = true /\ double_of_float32 g = f.
Proof.
  split.
  - intros Hex. destruct f as [s|s| |s m e].
    1: now exists (S754_zero s).
    1: now exists (S754_infinity s).
    1: now exists S754_nan.
    destruct (float32_exact_shape s m e Hex)
      as (m' & k & Hm & Hk & Hdm & Hdm' & He).
    assert (He32 : e <= 75).
    { cbn [float32_exact] in Hex. apply andb_prop in Hex as [_ H].
      apply Z.leb_le in H. lia. }
    exists (S754_finite s m' (e + Zpos k)). split.
    + cbn [valid_binary]. unfold bounded, canonical_mantissa, fexp, emin.
      apply andb_true_intro. split; [apply Z.eqb_eq|apply Z.leb_le]; lia.
    + rewrite Hm. apply double_of_float32_exact; lia.
  - intros (g & Hg & <-).
    destruct g as [s|s| |s m' e']; try reflexivity.
    cbn [valid_binary] in Hg.
    unfold bounded, canonical_mantissa, fexp, emin in Hg.
    apply andb_prop in Hg as [Hc He]. apply Z.eqb_eq in Hc. apply Z.leb_le in He.
    pose proof (Pos2Z.is_pos (digits2_pos m')) as Hpos.
    destruct (53 - Zpos (digits2_pos m')) as [|k|k] eqn:Ek; try lia.
    replace e' with ((e' - Zpos k) + Zpos k) by lia.
    rewrite double_of_float32_exact by lia.
    cbn [float32_exact].
    apply andb_true_intro. split; [apply andb_true_intro; split|].
    + unfold bounded, canonical_mantissa, fexp, emin.
      rewrite iter_xO_digits.
      apply andb_true_intro. split; [apply Z.eqb_eq|apply Z.leb_le]; lia.
    + apply Z.eqb_eq.
      replace (Z.max 29 (- 149 - (e' - Zpos k))) with (Zpos k) by lia.
      rewrite iter_xO_value. apply Z.mod_mul.
      apply Z.pow_nonzero; lia.
    + apply Z.leb_le. lia.
Qed.

(** ** The round trip of a value *)

Lemma unpack_pack_i (z : Z) :
  - 2 ^ 31 <= z < 2 ^ 31 ->
  pack_i (PInt z) = inr (le_bytes 4 z) /\
  unpack_i (le_bytes 4 z) = inr z.
Proof.
  intros Hz. split.
  - unfold pack_i. cbn [index].
    replace (- 2 ^ 31 <=? z) with true by (symmetry; apply Z.leb_le; lia).
    replace (z <? 2 ^ 31) with true by (symmetry; apply Z.ltb_lt; lia).
    reflexivity.
  - unfold unpack_i. rewrite le_bytes_length. cbn [Nat.eqb].
    rewrite le_value_le_bytes. change (256 ^ Z.of_nat 4) with (2 ^ 32).
    unfold ret. f_equal.
    destruct (Z_lt_le_dec z 0) as [Hneg|Hpos].
    + assert (E : z mod 2 ^ 32 = z + 2 ^ 32).
      { symmetry. apply (Z.mod_unique _ _ (- 1)); lia. }
      rewrite E.
      replace (z + 2 ^ 32 <? 2 ^ 31) with false
        by (symmetry; apply Z.ltb_ge; lia).
      lia.
    + rewrite Z.mod_small by lia.
      replace (z <? 2 ^ 31) with true by (symmetry; apply Z.ltb_lt; lia).
      reflexivity.
Qed.

Lemma is_byte_value_inv (v : pyval) :
  is_byte_value v = true -> exists z, v = PInt z /\ 0 <= z < 256.
Proof.
  destruct v as [|b|z|f|s|l|d]; try discriminate. cbn [is_byte_value].
  intros H. apply andb_prop in H as [H1 H2].
  apply Z.leb_le in H1. apply Z.ltb_lt in H2. exists z. now split.
Qed.

Lemma array_round_trip (a b c d : Z) :
  0 <= a < 256 -> 0 <= b < 256 -> 0 <= c < 256 -> 0 <= d < 256 ->
  let v := PList [PInt a; PInt b; PInt c; PInt d] in
  let data := [byte_of_Z a; byte_of_Z b; byte_of_Z c; byte_of_Z d] in
  bytes_of_array v = inr data /\ array_of_bytes data = inr v.
Proof.
  intros Ha Hb Hc Hd. cbv zeta. split.
  - unfold bytes_of_array.
    cbn [getitem_int nth_error bind ret index].
    rewrite !checked_byte_ok by assumption. reflexivity.
  - cbn [array_of_bytes]. rewrite !Z_of_byte_of_Z.
    rewrite !Z.mod_small by assumption. reflexivity.
Qed.

(** A typed value is encoded into four bytes that decode to it. *)
Lemma decode_encode_value (ty : string) (v : pyval) :
  representable ty v = true ->
  exists data,
    encode_value ty v = inr (Bound data) /\
    List.length data = 4%nat /\
    decode_value ty data None = inr v.
Proof.
  unfold representable, encode_value, decode_value.
  destruct (String.eqb ty "int32").
  { destruct v as [|b|z|f|s|l|d]; try discriminate. intros H.
    apply andb_prop in H as [H1 H2].
    apply Z.leb_le in H1. apply Z.ltb_lt in H2.
    destruct (unpack_pack_i z (conj H1 H2)) as [Ep Eu].
    exists (le_bytes 4 z). rewrite Ep, Eu.
    repeat split. }
  destruct (String.eqb ty "float").
  { destruct v as [|b|z|f|s|l|d]; try discriminate. intros H.
    destruct (unpack_pack_f f H) as (data & Ep & Hlen & Eu).
    exists data. rewrite Ep, Eu. repeat split. exact Hlen. }
  destruct (String.eqb ty "array"); [|discriminate].
  destruct v as [|b|z|f|s|l|d]; try discriminate.
  destruct l as [|a [|b [|c [|d [|]]]]]; try discriminate. intros H.
  apply andb_prop in H as [H Hd]. apply andb_prop in H as [H Hc].
  apply andb_prop in H as [Ha Hb].
  apply is_byte_value_inv in Ha as (za & -> & Ha).
  apply is_byte_value_inv in Hb as (zb & -> & Hb).
  apply is_byte_value_inv in Hc as (zc & -> & Hc).
  apply is_byte_value_inv in Hd as (zd & -> & Hd).
  destruct (array_round_trip za zb zc zd Ha Hb Hc Hd) as [Ee Ed].
  eexists. rewrite Ee, Ed. repeat split.
Qed.

Lemma first_topic_some (items : list (string * entry)) (t t0 : string)
    (t1 : entry) :
  first_topic items t = Some (t0, t1) -> In (t0, t1) items /\ t0 = t.
Proof.
  unfold first_topic. intros H. apply find_some in H as [Hin Heq].
  split; [exact Hin|]. now apply String.eqb_eq in Heq.
Qed.

(** C2, round trip. A message on a topic of the table whose value is a
    typed value of the entry's type is written to the serial port as the
    seven bytes 0x40, 0x40, identifier, four payload bytes; those bytes, fed
    to a parser between frames, report exactly one frame, with the entry's
    identifier; decoding its payload by the entry's type gives the original
    value, and the frame is published to the entry's topic as the original
    field name with the original value. *)
Theorem codec_round_trip (json_loads : list byte -> result pyval)
    (self : bridge) (msg : message) (t0 : string) (t1 : entry)
    (obj value : pyval)
    (Htyped : table_typed (lookup_table (topics_lookup self)) = true)
    (Hmatch : first_topic (lookup_table (topics_lookup self)) (topic msg)
              = Some (t0, t1))
    (Hid : 0 <= entry_id t1 < 256)
    (Hobj : json_loads (payload msg) = inr obj)
    (Hval : getitem_str obj (entry_name t1) = inr value)
    (Hrep : representable (entry_type t1) value = true) :
  exists (id : byte) (data : list byte),
    Z_of_byte id = entry_id t1 /\
    List.length data = 4%nat /\
    on_message json_loads self msg =
      ([Print_on_msg (topic msg) (payload msg);
        Serial_write [HEADER_CHAR]; Serial_write [HEADER_CHAR];
        Serial_write [id]; Serial_write data], Returned self) /\
    List.concat (serial_writes (fst (on_message json_loads self msg)))
      = wire (Frame id data) /\
    List.length (wire (Frame id data)) = 7%nat /\
    exists evs,
      poll_FTMQ (init (topics_lookup self)) (wire (Frame id data))
        = (evs, Returned (init (topics_lookup self))) /\
      emitted_frames evs = [Frame id data] /\
      decode_value (entry_type t1) data None = inr value /\
      In (t0, PDict [(entry_name t1, value)]) (publishes evs).
Proof.
  destruct (decode_encode_value _ _ Hrep) as (data & Eenc & Hlen & Edec).
  set (id := byte_of_Z (entry_id t1)).
  assert (Hidv : Z_of_byte id = entry_id t1).
  { unfold id. rewrite Z_of_byte_of_Z. now apply Z.mod_small. }
  assert (E : on_message json_loads self msg =
              ([Print_on_msg (topic msg) (payload msg);
                Serial_write [HEADER_CHAR]; Serial_write [HEADER_CHAR];
                Serial_write [id]; Serial_write data], Returned self)).
  { unfold on_message.
    rewrite (on_message_items_first json_loads _ self msg t0 t1 Hmatch).
    rewrite (checked_byte_ok _ Hid). unfold try_write.
    rewrite Hobj. cbn [bind]. rewrite Hval. cbn [bind]. rewrite Eenc.
    reflexivity. }
  exists id, data. split; [exact Hidv|]. split; [exact Hlen|].
  split; [exact E|]. split.
  { rewrite E. cbn [fst serial_writes List.concat app].
    now rewrite app_nil_r. }
  split; [unfold wire; cbn [frame_payload identifier app List.length]; lia|].
  destruct (poll_wire_typed (topics_lookup self) (Frame id data) Htyped Hlen)
    as (evs & Ep & Hf & Hp & _).
  exists evs. split; [exact Ep|]. split; [exact Hf|]. split; [exact Edec|].
  rewrite Hp. cbn [frame_payload identifier].
  apply first_topic_some in Hmatch as [Hin _].
  apply in_map_iff. exists (t0, t1). split.
  - unfold publish_of, decoded. cbn [fst snd]. rewrite Edec. reflexivity.
  - unfold matching. apply filter_In. split; [exact Hin|].
    cbn [snd]. apply Z.eqb_eq. now rewrite Hidv.
Qed.

Lemma codec_round_trip_witness :
  let self := init sample_topics in
  let msg := Message "home/gain" [] in
  let obj := PDict [("gain", PFloat three_and_a_half)] in
  representable "float" (PFloat three_and_a_half) = true /\
  exists (id : byte) (data : list byte),
    Z_of_byte id = 2 /\
    List.length data = 4%nat /\
    on_message (loads_constant obj) self msg =
      ([Print_on_msg "home/gain" [];
        Serial_write [HEADER_CHAR]; Serial_write [HEADER_CHAR];
        Serial_write [id]; Serial_write data], Returned self) /\
    List.concat (serial_writes (fst (on_message (loads_constant obj) self msg)))
      = wire (Frame id data) /\
    List.length (wire (Frame id data)) = 7%nat /\
    exists evs,
      poll_FTMQ self (wire (Frame id data)) = (evs, Returned self) /\
      emitted_frames evs = [Frame id data] /\
      decode_value "float" data None = inr (PFloat three_and_a_half) /\
      In ("home/gain", obj) (publishes evs).
Proof.
  intros self msg obj. split; [reflexivity|].
  apply (codec_round_trip (loads_constant obj) self msg "home/gain"
           (Entry 2 "float" "gain") obj (PFloat three_and_a_half));
    try reflexivity.
  cbn. lia.
Defined.

(** * Further properties of the code *)

(** ** The table loop on any table *)

Lemma decode_value_cases (ty : string) (value : list byte) (data : option pyval) :
  List.length value = 4%nat ->
  decode_value ty value data =
    if known_type ty then inr (decoded ty value)
    else match data with
         | Some d => inr d
         | None => inl UnboundLocalError
         end.
Proof.
  intros Hlen. destruct (known_type ty) eqn:Hk.
  - now apply decode_value_known.
  - unfold known_type in Hk. unfold decode_value.
    destruct (String.eqb ty "int32"); [discriminate Hk|].
    destruct (String.eqb ty "float"); [discriminate Hk|].
    destruct (String.eqb ty "array"); [discriminate Hk|]. reflexivity.
Qed.

(** Once [data] is bound the loop cannot raise. *)
Lemma publish_matching_bound (items : list (string * entry)) (id : byte)
    (value : list byte) (d : pyval) :
  List.length value = 4%nat ->
  publish_matching items id value (Some d) =
    (publish_events (fan_out (matching items id) value d), None).
Proof.
  intros Hlen. revert d. induction items as [|[t0 t1] rest IH]; intros d.
  - reflexivity.
  - cbn [publish_matching matching filter snd].
    destruct (entry_id t1 =? Z_of_byte id); [|apply IH].
    rewrite (decode_value_cases _ _ _ Hlen).
    cbn [fan_out publish_events map fst snd].
    destruct (known_type (entry_type t1)); rewrite IH; reflexivity.
Qed.

Lemma publish_matching_unbound (items : list (string * entry)) (id : byte)
    (value : list byte) :
  List.length value = 4%nat ->
  publish_matching items id value None =
    match matching items id with
    | [] => ([], None)
    | (t0, t1) :: ms =>
        if known_type (entry_type t1)
        then (publish_events (fan_out ((t0, t1) :: ms) value PNone), None)
        else ([], Some UnboundLocalError)
    end.
Proof.
  intros Hlen. induction items as [|[t0 t1] rest IH].
  - reflexivity.
  - cbn [publish_matching matching filter snd].
    destruct (entry_id t1 =? Z_of_byte id); [|apply IH].
    rewrite (decode_value_cases _ _ _ Hlen).
    destruct (known_type (entry_type t1)) eqn:Hk; [|reflexivity].
    rewrite (publish_matching_bound _ _ _ _ Hlen).
    cbn [fan_out publish_events map fst snd]. rewrite Hk. reflexivity.
Qed.

Lemma publishes_publish_events (ps : list (string * pyval)) :
  publishes (publish_events ps) = ps /\
  emitted_frames (publish_events ps) = [] /\
  serial_writes (publish_events ps) = [].
Proof.
  induction ps as [|[t d] ps (IH1 & IH2 & IH3)]; [repeat split|].
  cbn [publish_events map publishes emitted_frames serial_writes fst snd].
  fold (publish_events ps). rewrite IH1. repeat split; assumption.
Qed.

Lemma fan_out_topics (ms : list (string * entry)) (value : list byte)
    (prev : pyval) :
  map fst (fan_out ms value prev) = map fst ms.
Proof.
  revert prev. induction ms as [|[t0 t1] ms IH]; intros prev; [reflexivity|].
  cbn [fan_out map fst]. now rewrite IH.
Qed.

(** With known types nothing is carried over from one entry to the next. *)
Lemma fan_out_typed (ms : list (string * entry)) (value : list byte)
    (prev : pyval) :
  table_typed ms = true ->
  fan_out ms value prev = map (publish_of value) ms.
Proof.
  revert prev. induction ms as [|[t0 t1] ms IH]; intros prev H; [reflexivity|].
  cbn [table_typed forallb snd] in H. apply andb_prop in H as [Hk Hr].
  cbn [fan_out map]. rewrite Hk, (IH _ Hr). reflexivity.
Qed.

(** X1. A complete frame whose first selected entry has none of the three
    known types makes the parser raise [UnboundLocalError]: the frame is
    printed, nothing is published, and the bridge is left with the five
    bytes in the buffer and the header count at 2. *)
Theorem unknown_first_type_raises (topics : lookup) (f : frame)
    (t0 : string) (t1 : entry) (ms : list (string * entry))
    (Hlen : List.length (frame_payload f) = 4%nat)
    (Hfirst : matching (lookup_table topics) (identifier f) = (t0, t1) :: ms)
    (Hunknown : known_type (entry_type t1) = false) :
  poll_FTMQ (init topics) (wire f) =
    ([Print_receiving_serial (identifier f :: frame_payload f)],
     Raised UnboundLocalError
       {| topics_lookup := topics;
          read_buffer := identifier f :: frame_payload f;
          waiting_header := 2 |}).
Proof.
  rewrite (poll_wire _ _ Hlen). cbv zeta.
  rewrite (publish_matching_unbound _ _ _ Hlen), Hfirst, Hunknown.
  reflexivity.
Qed.

Lemma unknown_first_type_raises_witness :
  let topics := {| mqtt_subscriptions := [];
                   lookup_table := [("plant/level", Entry 7 "uint8" "level");
                                    ("mirror/level", Entry 7 "int32" "copy")] |} in
  let f := Frame x07 [x05; x00; x00; x00] in
  poll_FTMQ (init topics) (wire f) =
    ([Print_receiving_serial [x07; x05; x00; x00; x00]],
     Raised UnboundLocalError
       {| topics_lookup := topics;
          read_buffer := [x07; x05; x00; x00; x00];
          waiting_header := 2 |}).
Proof.
  intros topics f.
  exact (unknown_first_type_raises topics f "plant/level"
           (Entry 7 "uint8" "level") [("mirror/level", Entry 7 "int32" "copy")]
           eq_refl eq_refl eq_refl).
Defined.

(** X2. When the first selected entry has a known type the frame never
    raises, whatever the types of the other entries: every selected entry
    publishes, in table order, to its own topic; an entry of a known type
    publishes the payload decoded by its type, and an entry of another type
    publishes again the object published just before it, wrapped under its
    own field name. *)
Theorem known_first_type_fans_out (topics : lookup) (f : frame)
    (t0 : string) (t1 : entry) (ms : list (string * entry))
    (Hlen : List.length (frame_payload f) = 4%nat)
    (Hfirst : matching (lookup_table topics) (identifier f) = (t0, t1) :: ms)
    (Hknown : known_type (entry_type t1) = true) :
  exists evs,
    poll_FTMQ (init topics) (wire f) = (evs, Returned (init topics)) /\
    emitted_frames evs = [f] /\
    publishes evs = fan_out ((t0, t1) :: ms) (frame_payload f) PNone /\
    map fst (publishes evs) = map fst ((t0, t1) :: ms) /\
    forall (pre post : list (string * entry)) (ta tb : string) (a b : entry),
      (t0, t1) :: ms = pre ++ (ta, a) :: (tb, b) :: post ->
      known_type (entry_type b) = false ->
      exists (d : pyval) (ps qs : list (string * pyval)),
        publishes evs =
          ps ++ (ta, PDict [(entry_name a, d)])
             :: (tb, PDict [(entry_name b, PDict [(entry_name a, d)])]) :: qs.
Proof.
  rewrite (poll_wire _ _ Hlen). cbv zeta.
  rewrite (publish_matching_unbound _ _ _ Hlen), Hfirst, Hknown.
  eexists. split; [reflexivity|].
  destruct (publishes_publish_events
              (fan_out ((t0, t1) :: ms) (frame_payload f) PNone))
    as (Hp & Hf & _).
  cbn [emitted_frames publishes]. rewrite Hf, Hp.
  split; [now destruct f|]. split; [reflexivity|].
  split; [apply fan_out_topics|].
  intros pre post ta tb a b -> Hb. generalize PNone.
  induction pre as [|[u0 u1] pre IH]; intros prev.
  - cbn [app fan_out]. rewrite Hb.
    eexists _, [], _. reflexivity.
  - cbn [app fan_out].
    destruct (IH (PDict
                    [(entry_name u1,
                      if known_type (entry_type u1)
                      then decoded (entry_type u1) (frame_payload f)
                      else prev)])) as (d & ps & qs & E).
    rewrite E. eexists d, (_ :: ps), qs. reflexivity.
Qed.

Lemma known_first_type_fans_out_witness :
  let topics := {| mqtt_subscriptions := [];
                   lookup_table := [("plant/level", Entry 7 "int32" "level");
                                    ("mirror/level", Entry 7 "uint8" "copy")] |} in
  let f := Frame x07 [x05; x00; x00; x00] in
  exists evs,
    poll_FTMQ (init topics) (wire f) = (evs, Returned (init topics)) /\
    publishes evs =
      [("plant/level", PDict [("level", PInt 5)]);
       ("mirror/level", PDict [("copy", PDict [("level", PInt 5)])])].
Proof.
  intros topics f.
  destruct (known_first_type_fans_out topics f "plant/level"
              (Entry 7 "int32" "level") [("mirror/level", Entry 7 "uint8" "copy")]
              eq_refl eq_refl eq_refl) as (evs & E & _ & Hp & _).
  exists evs. split; [exact E|]. rewrite Hp. reflexivity.
Defined.

(** ** A buffer that holds five bytes or more *)

(** X3. The parser tests the buffer for exactly five bytes. In the state
    that an exception of the table loop leaves (header count 2, five bytes
    buffered), and in any state with five bytes or more, every further byte
    is appended and nothing else happens: no frame is reported any more and
    the buffer grows by all the input. *)
Theorem overfull_buffer_is_stuck (self : bridge) (data : list byte)
    (Hwh : 2 <= waiting_header self)
    (Hfull : (5 <= List.length (read_buffer self))%nat) :
  poll_FTMQ self data =
    ([], Returned (set_read_buffer self (read_buffer self ++ data))).
Proof.
  revert self Hwh Hfull. induction data as [|b data IH]; intros self Hwh Hfull.
  - rewrite app_nil_r. now destruct self.
  - cbn [poll_FTMQ].
    rewrite parse_collect
      by (try assumption; rewrite length_app; unfold FTMQ_PKT_LEN;
          cbn [List.length]; lia).
    rewrite IH.
    + cbn [set_read_buffer read_buffer app].
      rewrite <- app_assoc. reflexivity.
    + exact Hwh.
    + cbn [set_read_buffer read_buffer]. rewrite length_app. lia.
Qed.

Lemma overfull_buffer_is_stuck_witness :
  let self := {| topics_lookup := sample_topics;
                 read_buffer := [x07; x05; x00; x00; x00];
                 waiting_header := 2 |} in
  poll_FTMQ self (wire sample_frame) =
    ([], Returned (set_read_buffer self
                     ([x07; x05; x00; x00; x00] ++ wire sample_frame))).
Proof.
  intros self.
  apply (overfull_buffer_is_stuck self (wire sample_frame)).
  - cbn. lia.
  - cbn. lia.
Defined.

(** ** The parser on any table *)

Lemma fan_out_In (ms : list (string * entry)) (value : list byte)
    (prev : pyval) (t : string) (d : pyval) :
  In (t, d) (fan_out ms value prev) ->
  exists t1 v, In (t, t1) ms /\ d = PDict [(entry_name t1, v)].
Proof.
  revert prev. induction ms as [|[u0 u1] ms IH]; intros prev H; [destruct H|].
  cbn [fan_out] in H. destruct H as [H|H].
  - injection H as <- <-. eexists u1, _. split; [now left|reflexivity].
  - destruct (IH _ H) as (t1 & v & Hin & ->).
    exists t1, v. split; [now right|reflexivity].
Qed.

(** What the loop over the table can do on a four-byte payload. *)
Lemma publish_matching_any (items : list (string * entry)) (id : byte)
    (value : list byte) :
  List.length value = 4%nat ->
  exists evs r,
    publish_matching items id value None = (evs, r) /\
    emitted_frames evs = [] /\ serial_writes evs = [] /\
    (r = None \/ (r = Some UnboundLocalError /\ evs = [])) /\
    forall t d, In (t, d) (publishes evs) ->
      exists t1 v, In (t, t1) items /\ entry_id t1 = Z_of_byte id /\
                   d = PDict [(entry_name t1, v)].
Proof.
  intros Hlen. rewrite (publish_matching_unbound _ _ _ Hlen).
  destruct (matching items id) as [|[t0 t1] ms] eqn:Em.
  - exists [], None. repeat split; auto. intros t d [].
  - destruct (known_type (entry_type t1)).
    + destruct (publishes_publish_events (fan_out ((t0, t1) :: ms) value PNone))
        as (Hp & Hf & Hw).
      eexists _, None. split; [reflexivity|].
      split; [exact Hf|]. split; [exact Hw|]. split; [now left|].
      intros t d Hin. rewrite Hp in Hin.
      apply fan_out_In in Hin as (u1 & v & Hin & ->).
      rewrite <- Em in Hin. unfold matching in Hin.
      apply filter_In in Hin as [Hin Hid]. cbn [snd] in Hid.
      apply Z.eqb_eq in Hid. now exists u1, v.
    + exists [], (Some UnboundLocalError).
      repeat split; auto. intros t d [].
Qed.

(** One step from a state that satisfies the invariant: it returns and
    keeps the invariant, or it raises [UnboundLocalError] on the fifth
    byte. Seven steps at least lie between two reports. *)
Lemma parse_step_any (topics : lookup) (self : bridge) (b : byte) :
  parser_inv topics self ->
  exists evs out,
    parse_FTMQ self b = (evs, out) /\
    serial_writes evs = [] /\
    (forall t d, In (t, d) (publishes evs) ->
       exists t1 f v, In (t, t1) (lookup_table topics) /\
                      In f (emitted_frames evs) /\
                      entry_id t1 = Z_of_byte (identifier f) /\
                      d = PDict [(entry_name t1, v)]) /\
    ((exists self',
         out = Returned self' /\ parser_inv topics self' /\
         (7 * List.length (emitted_frames evs) + progress self'
          <= progress self + 1)%nat) \/
     (exists self',
         out = Raised UnboundLocalError self' /\
         topics_lookup self' = topics /\
         waiting_header self' = 2 /\
         List.length (read_buffer self') = 5%nat /\
         List.length (emitted_frames evs) = 1%nat /\
         publishes evs = [] /\
         progress self = 6%nat)).
Proof.
  intros [Htab [[Hwh Hbuf]|[Hwh Hlen]]].
  - (* awaiting the header *)
    destruct (Byte.byte_eq_dec b HEADER_CHAR) as [->|Hb].
    + rewrite parse_sync by lia.
      eexists _, _. split; [reflexivity|]. split; [reflexivity|].
      split; [intros t d []|]. left.
      eexists. split; [reflexivity|]. split.
      * split; [exact Htab|].
        cbn [set_waiting_header waiting_header read_buffer].
        destruct Hwh as [-> | ->]; [left|right]; split; auto;
          rewrite Hbuf; cbn; lia.
      * unfold progress.
        cbn [set_waiting_header waiting_header read_buffer emitted_frames
             List.length].
        destruct Hwh as [-> | ->]; cbn; lia.
    + rewrite parse_discard by (lia || assumption).
      eexists _, _. split; [reflexivity|]. split; [reflexivity|].
      split; [intros t d []|]. left.
      eexists. split; [reflexivity|]. split.
      * split; [exact Htab|]. left. now split.
      * cbn [emitted_frames List.length]. lia.
  - (* collecting the packet *)
    destruct (Nat.eq_dec (List.length (read_buffer self ++ [b])) FTMQ_PKT_LEN)
      as [Hfull|Hpart].
    + destruct (read_buffer self) as [|id rest] eqn:Ebuf.
      { cbn in Hfull. discriminate Hfull. }
      assert (Hval : List.length (rest ++ [b]) = 4%nat).
      { cbn [app List.length] in Hfull. unfold FTMQ_PKT_LEN in Hfull. lia. }
      assert (Hrest : List.length rest = 3%nat).
      { rewrite length_app in Hval. cbn [List.length] in Hval. lia. }
      rewrite (parse_complete self b id (rest ++ [b]))
        by (try lia; try assumption; rewrite Ebuf; reflexivity).
      cbv zeta. rewrite Htab.
      destruct (publish_matching_any (lookup_table topics) id _ Hval)
        as (evs & r & -> & Hf & Hw & Hr & Hp).
      destruct Hr as [-> | [-> ->]].
      * eexists _, _. split; [reflexivity|].
        cbn [serial_writes emitted_frames publishes].
        split; [exact Hw|]. split.
        { intros t d Hin. destruct (Hp t d Hin) as (t1 & v & H1 & H2 & H3).
          exists t1, (Frame id (rest ++ [b])), v.
          repeat split; try assumption. now left. }
        left. eexists. split; [reflexivity|]. split; [apply init_inv|].
        rewrite Hf. unfold progress. rewrite Hwh, Ebuf.
        cbn [init waiting_header read_buffer List.length]. rewrite Hrest.
        cbn. lia.
      * eexists _, _. split; [reflexivity|].
        split; [reflexivity|]. split; [intros t d []|]. right.
        eexists. split; [reflexivity|].
        cbn [set_read_buffer topics_lookup waiting_header read_buffer
             emitted_frames publishes List.length].
        rewrite Hval. unfold progress. rewrite Hwh, Ebuf.
        cbn [List.length]. rewrite Hrest. repeat split; auto.
    + rewrite parse_collect by (lia || assumption).
      rewrite length_app in Hpart. cbn [List.length] in Hpart.
      unfold FTMQ_PKT_LEN in Hpart.
      eexists _, _. split; [reflexivity|]. split; [reflexivity|].
      split; [intros t d []|]. left.
      eexists. split; [reflexivity|]. split.
      * split; [exact Htab|]. right.
        cbn [set_read_buffer waiting_header read_buffer]. split; [exact Hwh|].
        rewrite length_app. cbn [List.length]. lia.
      * unfold progress.
        cbn [set_read_buffer waiting_header read_buffer emitted_frames
             List.length].
        rewrite length_app. cbn [List.length]. lia.
Qed.

Lemma serial_writes_app (xs ys : list event) :
  serial_writes (xs ++ ys) = serial_writes xs ++ serial_writes ys.
Proof.
  induction xs as [|x xs IH]; [reflexivity|].
  destruct x; cbn [app serial_writes]; rewrite IH; reflexivity.
Qed.

Lemma publishes_app (xs ys : list event) :
  publishes (xs ++ ys) = publishes xs ++ publishes ys.
Proof.
  induction xs as [|x xs IH]; [reflexivity|].
  destruct x; cbn [app publishes]; rewrite IH; reflexivity.
Qed.

(** The whole input, from a state that satisfies the invariant. *)
Lemma poll_any (topics : lookup) (data : list byte) :
  forall self, parser_inv topics self ->
  exists evs out,
    poll_FTMQ self data = (evs, out) /\
    serial_writes evs = [] /\
    (7 * List.length (emitted_frames evs)
     <= progress self + List.length data)%nat /\
    (forall t d, In (t, d) (publishes evs) ->
       exists t1 f v, In (t, t1) (lookup_table topics) /\
                      In f (emitted_frames evs) /\
                      entry_id t1 = Z_of_byte (identifier f) /\
                      d = PDict [(entry_name t1, v)]) /\
    ((exists self', out = Returned self' /\ parser_inv topics self') \/
     (exists self',
         out = Raised UnboundLocalError self' /\
         topics_lookup self' = topics /\
         waiting_header self' = 2 /\
         List.length (read_buffer self') = 5%nat)).
Proof.
  induction data as [|b data IH]; intros self Hinv.
  - exists [], (Returned self). split; [reflexivity|]. split; [reflexivity|].
    split; [cbn; lia|]. split; [intros t d []|]. left. now exists self.
  - destruct (parse_step_any topics self b Hinv)
      as (evs1 & out1 & E1 & Hw1 & Hp1 & Hout1).
    cbn [poll_FTMQ]. rewrite E1.
    destruct Hout1 as [(self1 & -> & Hinv1 & Hm1)
                      |(self1 & -> & Ht & Hwh & Hl & Hf & _ & Hpr)].
    + destruct (IH self1 Hinv1) as (evs2 & out2 & E2 & Hw2 & Hm2 & Hp2 & Hout2).
      rewrite E2. exists (evs1 ++ evs2), out2. split; [reflexivity|].
      split; [now rewrite serial_writes_app, Hw1, Hw2|].
      split.
      { rewrite emitted_frames_app, length_app. cbn [List.length]. lia. }
      split; [|exact Hout2].
      intros t d Hin. rewrite publishes_app in Hin.
      apply in_app_or in Hin as [Hin|Hin].
      * destruct (Hp1 t d Hin) as (t1 & f & v & H1 & H2 & H3 & H4).
        exists t1, f, v. rewrite emitted_frames_app.
        repeat split; try assumption. apply in_or_app. now left.
      * destruct (Hp2 t d Hin) as (t1 & f & v & H1 & H2 & H3 & H4).
        exists t1, f, v. rewrite emitted_frames_app.
        repeat split; try assumption. apply in_or_app. now right.
    + exists evs1, (Raised UnboundLocalError self1).
      split; [reflexivity|]. split; [exact Hw1|].
      split; [rewrite Hf, Hpr; cbn [List.length]; lia|].
      split; [exact Hp1|]. right. now exists self1.
Qed.

(** X4. Whatever the table and the input, the parser reports at most one
    frame for every seven bytes read: two header bytes and five packet
    bytes go into each report. *)
Theorem one_frame_per_seven_bytes (topics : lookup) (data : list byte) :
  (7 * List.length (emitted_frames (fst (poll_FTMQ (init topics) data)))
   <= List.length data)%nat.
Proof.
  destruct (poll_any topics data (init topics) (init_inv topics))
    as (evs & out & E & _ & Hm & _).
  rewrite E. cbn [fst]. exact Hm.
Qed.

(** X5. Whatever the table and the input, polling from the state of
    [__init__] ends in one of two ways. Either it returns, with the header
    count in 0..2, at most four bytes buffered and none while the header is
    awaited; or it raises [UnboundLocalError] (and no other exception)
    with the header count at 2 and exactly five bytes buffered. Either way
    the lookup document is the one the bridge was built with. *)
Theorem poll_outcomes (topics : lookup) (data : list byte) :
  exists evs out,
    poll_FTMQ (init topics) data = (evs, out) /\
    topics_lookup (bridge_of out) = topics /\
    ((exists self',
         out = Returned self' /\
         0 <= waiting_header self' <= 2 /\
         (List.length (read_buffer self') <= 4)%nat /\
         (waiting_header self' < 2 -> read_buffer self' = [])) \/
     (exists self',
         out = Raised UnboundLocalError self' /\
         waiting_header self' = 2 /\
         List.length (read_buffer self') = 5%nat)).
Proof.
  destruct (poll_any topics data (init topics) (init_inv topics))
    as (evs & out & E & _ & _ & _ & Hout).
  exists evs, out. split; [exact E|].
  destruct Hout as [(self' & -> & Htab & Hst)|(self' & -> & Htab & Hwh & Hl)].
  - split; [exact Htab|]. left. exists self'. split; [reflexivity|].
    destruct Hst as [[Hwh Hbuf]|[Hwh Hlen]].
    + rewrite Hbuf. cbn [List.length]. repeat split; try lia.
    + repeat split; try lia.
  - split; [exact Htab|]. right. now exists self'.
Qed.

(** X6. The serial-to-broker direction stays in its lane: polling never
    writes to the serial port, and every publish goes to a topic that is a
    key of the lookup table, for an entry whose id is the identifier of a
    frame reported in the same trace, as an object with that entry's field
    name as its only key. *)
Theorem publishes_come_from_the_table (topics : lookup) (data : list byte) :
  let evs := fst (poll_FTMQ (init topics) data) in
  serial_writes evs = [] /\
  forall t d, In (t, d) (publishes evs) ->
    exists t1 f v,
      In (t, t1) (lookup_table topics) /\
      In f (emitted_frames evs) /\
      entry_id t1 = Z_of_byte (identifier f) /\
      d = PDict [(entry_name t1, v)].
Proof.
  destruct (poll_any topics data (init topics) (init_inv topics))
    as (evs & out & E & Hw & _ & Hp & _).
  cbv zeta. rewrite E. cbn [fst]. now split.
Qed.

(** ** Streams of frames *)

(** The header with noise before each of its two bytes. *)
Lemma poll_noisy_header (topics : lookup) (g1 g2 : list byte) :
  noise_free g1 -> noise_free g2 ->
  poll_FTMQ (init topics) (g1 ++ [HEADER_CHAR] ++ g2 ++ [HEADER_CHAR]) =
    ([], Returned (set_waiting_header (init topics) 2)).
Proof.
  intros H1 H2.
  rewrite poll_app, poll_discard by (cbn; lia || assumption).
  rewrite poll_app. cbn [poll_FTMQ].
  rewrite parse_sync by (cbn; lia). cbn [app].
  rewrite poll_app, poll_discard by (cbn; lia || assumption).
  cbn [poll_FTMQ]. rewrite parse_sync by (cbn; lia). reflexivity.
Qed.

Lemma poll_noisy_wire (topics : lookup) (g1 g2 : list byte) (f : frame) :
  noise_free g1 -> noise_free g2 ->
  poll_FTMQ (init topics) (noisy_wire g1 g2 f) =
    poll_FTMQ (init topics) (wire f).
Proof.
  intros H1 H2. unfold noisy_wire, wire.
  change ([HEADER_CHAR; HEADER_CHAR; identifier f] ++ frame_payload f)
    with (([] ++ [HEADER_CHAR] ++ [] ++ [HEADER_CHAR])
            ++ [identifier f] ++ frame_payload f).
  replace (g1 ++ [HEADER_CHAR] ++ g2 ++ [HEADER_CHAR] ++ [identifier f]
              ++ frame_payload f)
    with ((g1 ++ [HEADER_CHAR] ++ g2 ++ [HEADER_CHAR])
            ++ [identifier f] ++ frame_payload f)
    by (now rewrite <- !app_assoc).
  rewrite (poll_app _ (g1 ++ _)), (poll_app _ ([] ++ _)).
  rewrite !poll_noisy_header by (assumption || constructor).
  reflexivity.
Qed.

(** X7. A stream of any number of frames, each with bytes other than 0x40
    before its first and between its two header bytes, fed to a bridge
    between frames with a table of known types: exactly the frames of the
    stream are reported, in order, each publishes for the entries that
    carry its identifier, and the parser ends between frames. *)
Theorem noisy_stream_decodes (topics : lookup)
    (fs : list (list byte * list byte * frame))
    (Htyped : table_typed (lookup_table topics) = true)
    (Hclean : Forall clean fs) :
  exists evs,
    poll_FTMQ (init topics) (noisy_stream fs) = (evs, Returned (init topics)) /\
    emitted_frames evs = map snd fs /\
    publishes evs =
      flat_map (fun x => map (publish_of (frame_payload (snd x)))
                             (matching (lookup_table topics)
                                       (identifier (snd x)))) fs.
Proof.
  induction Hclean as [|[[g1 g2] f] fs (H1 & H2 & Hlen) _ IH].
  - exists []. repeat split.
  - cbn [fst snd] in H1, H2, Hlen.
    destruct IH as (evs2 & E2 & Hf2 & Hp2).
    destruct (poll_wire_typed topics f Htyped Hlen) as (evs1 & E1 & Hf1 & Hp1 & _).
    cbn [noisy_stream]. rewrite poll_app, (poll_noisy_wire _ _ _ _ H1 H2), E1, E2.
    exists (evs1 ++ evs2). split; [reflexivity|].
    rewrite emitted_frames_app, publishes_app, Hf1, Hf2, Hp1, Hp2.
    split; reflexivity.
Qed.

Lemma noisy_stream_decodes_witness :
  let fs := [([x00; xff], [x41], sample_frame); ([], [], other_frame);
             ([x13], [], sample_frame)] in
  exists evs,
    poll_FTMQ (init sample_topics) (noisy_stream fs)
      = (evs, Returned (init sample_topics)) /\
    emitted_frames evs = [sample_frame; other_frame; sample_frame].
Proof.
  intros fs.
  destruct (noisy_stream_decodes sample_topics fs eq_refl) as (evs & E & Hf & _).
  - repeat constructor; discriminate.
  - exists evs. split; [exact E|exact Hf].
Defined.

(** Less than seven bytes from the state of [__init__] report nothing. *)
Lemma short_input_reports_nothing (topics : lookup) (data : list byte) :
  table_typed (lookup_table topics) = true ->
  (List.length data < 7)%nat ->
  exists evs self',
    poll_FTMQ (init topics) data = (evs, Returned self') /\
    emitted_frames evs = [] /\ publishes evs = [] /\
    parser_inv topics self'.
Proof.
  intros Hty Hlen.
  destruct (poll_inv topics data Hty (init topics) (init_inv topics))
    as (evs & self' & E & Hinv).
  destruct (poll_any topics data (init topics) (init_inv topics))
    as (evs0 & out0 & E0 & _ & Hm & Hp & _).
  rewrite E in E0. injection E0 as <- <-.
  unfold progress in Hm. cbn [init waiting_header read_buffer List.length] in Hm.
  assert (Hnone : emitted_frames evs = []).
  { destruct (emitted_frames evs); [reflexivity|].
    cbn [List.length Z.to_nat] in Hm. lia. }
  assert (Hpub : publishes evs = []).
  { destruct (publishes evs) as [|[t d] ps] eqn:Ep; [reflexivity|].
    destruct (Hp t d (or_introl eq_refl)) as (_ & f & _ & _ & Hin & _).
    rewrite Hnone in Hin. destruct Hin. }
  exists evs, self'. split; [exact E|]. split; [exact Hnone|].
  split; [exact Hpub|exact Hinv].
Qed.

Lemma poll_body (topics : lookup) (f : frame) :
  poll_FTMQ (set_waiting_header (init topics) 2)
            (identifier f :: frame_payload f)
  = poll_FTMQ (init topics) (wire f).
Proof.
  change (wire f)
    with (([] ++ [HEADER_CHAR] ++ [] ++ [HEADER_CHAR])
            ++ identifier f :: frame_payload f).
  rewrite poll_app, poll_noisy_header by constructor.
  destruct (poll_FTMQ _ (identifier f :: frame_payload f)). reflexivity.
Qed.

(** X8. One stray 0x40 in the noise before a frame shifts the framing: the
    stray byte and the frame's first header byte make the header, the
    frame's second header byte is taken as the identifier, and the reported
    frame carries the real identifier and the first three payload bytes as
    its payload. The fourth payload byte is read as noise or as the first
    header byte of the next frame. *)
Theorem stray_header_byte_shifts_frame (topics : lookup) (g1 g2 : list byte)
    (id p0 p1 p2 p3 : byte)
    (Htyped : table_typed (lookup_table topics) = true)
    (H1 : noise_free g1) (H2 : noise_free g2) :
  exists evs self',
    poll_FTMQ (init topics)
      (g1 ++ [HEADER_CHAR] ++ g2 ++ wire (Frame id [p0; p1; p2; p3]))
      = (evs, Returned self') /\
    emitted_frames evs = [Frame HEADER_CHAR [id; p0; p1; p2]] /\
    read_buffer self' = [] /\
    waiting_header self' = if Byte.eqb p3 HEADER_CHAR then 1 else 0.
Proof.
  set (shifted := Frame HEADER_CHAR [id; p0; p1; p2]).
  destruct (poll_wire_typed topics shifted Htyped eq_refl)
    as (evs & E & Hf & _).
  replace (g1 ++ [HEADER_CHAR] ++ g2 ++ wire (Frame id [p0; p1; p2; p3]))
    with ((g1 ++ [HEADER_CHAR] ++ g2 ++ [HEADER_CHAR])
            ++ (identifier shifted :: frame_payload shifted) ++ [p3])
    by (unfold wire, shifted; cbn [identifier frame_payload];
        rewrite <- !app_assoc; reflexivity).
  rewrite poll_app, poll_noisy_header by assumption.
  rewrite poll_app, poll_body, E.
  cbn [poll_FTMQ app].
  destruct (Byte.byte_eq_dec p3 HEADER_CHAR) as [->|Hp3].
  - rewrite parse_sync by (cbn; lia). rewrite (Byte.byte_dec_lb (x:=HEADER_CHAR) eq_refl).
    eexists _, _. split; [reflexivity|].
    rewrite !app_nil_r. repeat split. exact Hf.
  - rewrite parse_discard by (cbn; lia || assumption).
    rewrite (byte_eqb_neq _ _ Hp3).
    eexists _, _. split; [reflexivity|].
    rewrite !app_nil_r. repeat split. exact Hf.
Qed.

Lemma stray_header_byte_shifts_frame_witness :
  exists evs self',
    poll_FTMQ (init sample_topics)
      ([x00] ++ [HEADER_CHAR] ++ [x13] ++ wire sample_frame)
      = (evs, Returned self') /\
    emitted_frames evs = [Frame x40 [x01; x2a; x00; x00]].
Proof.
  destruct (stray_header_byte_shifts_frame sample_topics [x00] [x13]
              x01 x2a x00 x00 x00 eq_refl)
    as (evs & self' & E & Hf & _).
  - repeat constructor; discriminate.
  - repeat constructor; discriminate.
  - exists evs, self'. split; [exact E|exact Hf].
Defined.

(** X9. A frame cut after its identifier (the two header bytes and one
    more byte) swallows the start of the frame that follows: the parser
    reports one frame, made of the cut frame's identifier and, as payload,
    the two header bytes, the identifier and the first payload byte of the
    following frame; the following frame itself is not reported. *)
Theorem truncated_frame_swallows_next (topics : lookup) (id0 : byte)
    (id p0 p1 p2 p3 : byte)
    (Htyped : table_typed (lookup_table topics) = true) :
  exists evs self',
    poll_FTMQ (init topics)
      ([HEADER_CHAR; HEADER_CHAR; id0] ++ wire (Frame id [p0; p1; p2; p3]))
      = (evs, Returned self') /\
    emitted_frames evs = [Frame id0 [HEADER_CHAR; HEADER_CHAR; id; p0]].
Proof.
  set (merged := Frame id0 [HEADER_CHAR; HEADER_CHAR; id; p0]).
  destruct (poll_wire_typed topics merged Htyped eq_refl)
    as (evs1 & E1 & Hf1 & _).
  destruct (short_input_reports_nothing topics [p1; p2; p3] Htyped)
    as (evs2 & self' & E2 & Hf2 & _); [cbn; lia|].
  change ([HEADER_CHAR; HEADER_CHAR; id0] ++ wire (Frame id [p0; p1; p2; p3]))
    with (wire merged ++ [p1; p2; p3]).
  rewrite poll_app, E1, E2.
  exists (evs1 ++ evs2), self'. split; [reflexivity|].
  now rewrite emitted_frames_app, Hf1, Hf2.
Qed.

Lemma truncated_frame_swallows_next_witness :
  table_typed (lookup_table sample_topics) = true /\
  exists evs self',
    poll_FTMQ (init sample_topics)
      ([x40; x40; x09] ++ wire sample_frame) = (evs, Returned self') /\
    emitted_frames evs = [Frame x09 [x40; x40; x01; x2a]].
Proof.
  split; [reflexivity|].
  exact (truncated_frame_swallows_next sample_topics x09 x01 x2a x00 x00 x00
           eq_refl).
Defined.

(** ** The broker callback on any message *)

Lemma bind_inr {A B : Type} (m : result A) (k : A -> result B) (b : B) :
  bind m k = inr b -> exists a, m = inr a /\ k a = inr b.
Proof.
  destruct m as [e|a]; [discriminate|]. intros H. now exists a.
Qed.

Lemma bytes_of_array_length (value : pyval) (data : list byte) :
  bytes_of_array value = inr data -> List.length data = 4%nat.
Proof.
  unfold bytes_of_array. intros H.
  apply bind_inr in H as (b0 & _ & H). apply bind_inr in H as (b1 & _ & H).
  apply bind_inr in H as (b2 & _ & H). apply bind_inr in H as (b3 & _ & H).
  injection H as <-. reflexivity.
Qed.

Lemma pack_i_length (value : pyval) (data : list byte) :
  pack_i value = inr data -> List.length data = 4%nat.
Proof.
  unfold pack_i. destruct (index value) as [z|]; [|discriminate].
  destruct ((- 2 ^ 31 <=? z) && (z <? 2 ^ 31)); [|discriminate].
  intros H. injection H as <-. exact (le_bytes_length 4 _).
Qed.

Lemma pack_f_length (value : pyval) (data : list byte) :
  pack_f value = inr data -> List.length data = 4%nat.
Proof.
  unfold pack_f. intros H. apply bind_inr in H as (x & _ & H).
  destruct (is_infinity (float32_of_double x) && negb (is_infinity x));
    [discriminate|].
  injection H as <-. exact (le_bytes_length 4 _).
Qed.

(** What the [if]/[elif] chain of [on_message] leaves in [data]: four
    bytes for a known type, nothing for another type. *)
Lemma encode_value_shape (ty : string) (value : pyval) (enc : encoded) :
  encode_value ty value = inr enc ->
  match enc with
  | Bound data => known_type ty = true /\ List.length data = 4%nat
  | Unbound => known_type ty = false
  end.
Proof.
  unfold encode_value, known_type.
  destruct (String.eqb ty "int32").
  { intros H. apply bind_inr in H as (data & Hp & H). injection H as <-.
    split; [reflexivity|]. eapply pack_i_length, Hp. }
  destruct (String.eqb ty "float").
  { intros H. apply bind_inr in H as (data & Hp & H). injection H as <-.
    split; [reflexivity|]. eapply pack_f_length, Hp. }
  destruct (String.eqb ty "array").
  { intros H. apply bind_inr in H as (data & Hp & H). injection H as <-.
    split; [reflexivity|]. eapply bytes_of_array_length, Hp. }
  intros H. injection H as <-. reflexivity.
Qed.

Lemma checked_byte_cases (z : Z) :
  (0 <= z < 256 /\ checked_byte z = inr (byte_of_Z z) /\
   Z_of_byte (byte_of_Z z) = z) \/
  ((z < 0 \/ 256 <= z) /\ checked_byte z = inl ValueError).
Proof.
  unfold checked_byte.
  destruct (0 <=? z) eqn:E1; [destruct (z <? 256) eqn:E2|].
  - apply Z.leb_le in E1. apply Z.ltb_lt in E2. left.
    split; [lia|]. split; [reflexivity|].
    rewrite Z_of_byte_of_Z. apply Z.mod_small. lia.
  - apply Z.ltb_ge in E2. right. split; [lia|reflexivity].
  - apply Z.leb_gt in E1. right. split; [lia|reflexivity].
Qed.

(** X10. The id of the entry is turned into a byte before the [try]: when
    the first entry for the topic has an id outside [range(256)],
    [on_message] raises [ValueError] to its caller, whatever the payload,
    and writes nothing. *)
Theorem out_of_range_id_escapes (json_loads : list byte -> result pyval)
    (self : bridge) (msg : message) (t0 : string) (t1 : entry)
    (Hmatch : first_topic (lookup_table (topics_lookup self)) (topic msg)
              = Some (t0, t1))
    (Hid : entry_id t1 < 0 \/ 256 <= entry_id t1) :
  on_message json_loads self msg =
    ([Print_on_msg (topic msg) (payload msg)], Raised ValueError self).
Proof.
  unfold on_message.
  rewrite (on_message_items_first json_loads _ self msg t0 t1 Hmatch).
  destruct (checked_byte_cases (entry_id t1)) as [[H _]|[_ ->]]; [lia|].
  reflexivity.
Qed.

Lemma out_of_range_id_escapes_witness :
  let topics := {| mqtt_subscriptions := ["plant/level"];
                   lookup_table := [("plant/level", Entry 300 "int32" "level")] |} in
  let msg := Message "plant/level" [] in
  on_message (loads_constant (PDict [("level", PInt 1)])) (init topics) msg =
    ([Print_on_msg "plant/level" []], Raised ValueError (init topics)).
Proof.
  intros topics msg.
  apply (out_of_range_id_escapes _ (init topics) msg "plant/level"
           (Entry 300 "int32" "level") eq_refl).
  right. cbn. lia.
Defined.

(** X11. For an entry whose type is none of the three known ones, a message
    that parses and has the field puts a cut frame on the wire: the two
    header bytes and the identifier are written, then the use of the
    unbound [data] raises, the exception is caught and logged, and the
    four payload bytes are never written. *)
Theorem unknown_type_writes_cut_frame (json_loads : list byte -> result pyval)
    (self : bridge) (msg : message) (t0 : string) (t1 : entry)
    (obj value : pyval)
    (Hmatch : first_topic (lookup_table (topics_lookup self)) (topic msg)
              = Some (t0, t1))
    (Hid : 0 <= entry_id t1 < 256)
    (Hobj : json_loads (payload msg) = inr obj)
    (Hval : getitem_str obj (entry_name t1) = inr value)
    (Hunknown : known_type (entry_type t1) = false) :
  on_message json_loads self msg =
    ([Print_on_msg (topic msg) (payload msg);
      Serial_write [HEADER_CHAR]; Serial_write [HEADER_CHAR];
      Serial_write [byte_of_Z (entry_id t1)];
      Print_unexpected_error UnboundLocalError], Returned self) /\
  List.concat (serial_writes (fst (on_message json_loads self msg)))
    = [HEADER_CHAR; HEADER_CHAR; byte_of_Z (entry_id t1)].
Proof.
  assert (Henc : encode_value (entry_type t1) value = inr Unbound).
  { unfold known_type in Hunknown. unfold encode_value.
    destruct (String.eqb (entry_type t1) "int32"); [discriminate|].
    destruct (String.eqb (entry_type t1) "float"); [discriminate|].
    destruct (String.eqb (entry_type t1) "array"); [discriminate|].
    reflexivity. }
  assert (E : on_message json_loads self msg =
    ([Print_on_msg (topic msg) (payload msg);
      Serial_write [HEADER_CHAR]; Serial_write [HEADER_CHAR];
      Serial_write [byte_of_Z (entry_id t1)];
      Print_unexpected_error UnboundLocalError], Returned self)).
  { unfold on_message.
    rewrite (on_message_items_first json_loads _ self msg t0 t1 Hmatch).
    rewrite (checked_byte_ok _ Hid). unfold try_write.
    rewrite Hobj. cbn [bind]. rewrite Hval. cbn [bind]. rewrite Henc.
    reflexivity. }
  split; [exact E|]. rewrite E. reflexivity.
Qed.

Lemma unknown_type_writes_cut_frame_witness :
  let topics := {| mqtt_subscriptions := ["plant/level"];
                   lookup_table := [("plant/level", Entry 9 "uint8" "level")] |} in
  let msg := Message "plant/level" [] in
  let loads := loads_constant (PDict [("level", PInt 1)]) in
  List.concat (serial_writes (fst (on_message loads (init topics) msg)))
    = [x40; x40; x09].
Proof.
  intros topics msg loads.
  refine (proj2 (unknown_type_writes_cut_frame loads (init topics) msg
                   "plant/level" (Entry 9 "uint8" "level")
                   (PDict [("level", PInt 1)]) (PInt 1)
                   eq_refl _ eq_refl eq_refl eq_refl)).
  cbn. lia.
Defined.

(** X12. Whatever the message, the table and the parser of the payload,
    [on_message] leaves the bridge object as it was (parser state and
    lookup document), publishes nothing, and puts on the wire either
    nothing, or one whole frame of seven bytes (header, header, the id of
    the first entry for the topic, four bytes) when that entry has a known
    type, or the first three bytes of a frame when it has another type. *)
Theorem on_message_writes_at_most_one_frame
    (json_loads : list byte -> result pyval) (self : bridge) (msg : message) :
  exists evs out,
    on_message json_loads self msg = (evs, out) /\
    bridge_of out = self /\
    publishes evs = [] /\
    (List.concat (serial_writes evs) = [] \/
     exists t0 t1 id,
       first_topic (lookup_table (topics_lookup self)) (topic msg)
         = Some (t0, t1) /\
       Z_of_byte id = entry_id t1 /\
       ((known_type (entry_type t1) = true /\
         exists data, List.length data = 4%nat /\
           List.concat (serial_writes evs) = wire (Frame id data)) \/
        (known_type (entry_type t1) = false /\
         List.concat (serial_writes evs) = [HEADER_CHAR; HEADER_CHAR; id]))).
Proof.
  unfold on_message.
  destruct (first_topic (lookup_table (topics_lookup self)) (topic msg))
    as [[t0 t1]|] eqn:Hmatch.
  - rewrite (on_message_items_first json_loads _ self msg t0 t1 Hmatch).
    destruct (checked_byte_cases (entry_id t1)) as [(_ & -> & Hb)|[_ ->]].
    + unfold try_write.
      destruct (bind (json_loads (payload msg)) _) as [e|[data|]] eqn:Etry.
      * eexists _, _. split; [reflexivity|]. repeat split. now left.
      * apply bind_inr in Etry as (obj & _ & Etry).
        apply bind_inr in Etry as (value & _ & Etry).
        apply encode_value_shape in Etry as [Hk Hlen].
        eexists _, _. split; [reflexivity|]. repeat split. right.
        exists t0, t1, (byte_of_Z (entry_id t1)).
        split; [reflexivity|]. split; [exact Hb|]. left.
        split; [exact Hk|]. exists data. split; [exact Hlen|].
        cbn [serial_writes List.concat app]. now rewrite app_nil_r.
      * apply bind_inr in Etry as (obj & _ & Etry).
        apply bind_inr in Etry as (value & _ & Etry).
        apply encode_value_shape in Etry.
        eexists _, _. split; [reflexivity|]. repeat split. right.
        exists t0, t1, (byte_of_Z (entry_id t1)).
        split; [reflexivity|]. split; [exact Hb|]. right.
        split; [exact Etry|reflexivity].
    + eexists _, _. split; [reflexivity|]. repeat split. now left.
  - rewrite (on_message_items_none json_loads _ self msg Hmatch).
    eexists _, _. split; [reflexivity|]. repeat split. now left.
Qed.

(** ** From bytes to a value and back *)

Lemma le_bytes_mod (n : nat) (z : Z) :
  le_bytes n (z mod 256 ^ Z.of_nat n) = le_bytes n z.
Proof.
  revert z. induction n as [|n IH]; intros z; [reflexivity|].
  cbn [le_bytes]. rewrite Nat2Z.inj_succ, Z.pow_succ_r by lia.
  assert (Hp : 0 < 256 ^ Z.of_nat n) by (apply Z.pow_pos_nonneg; lia).
  rewrite Z.rem_mul_r by lia.
  assert (Hq : (z mod 256 + 256 * ((z / 256) mod 256 ^ Z.of_nat n)) / 256
               = (z / 256) mod 256 ^ Z.of_nat n).
  { rewrite (Z.mul_comm 256), Z.div_add by lia.
    rewrite Z.div_small by (apply Z.mod_pos_bound; lia). lia. }
  rewrite Hq, IH. f_equal.
  unfold byte_of_Z. rewrite (Z.mul_comm 256), Z.mod_add by lia.
  now rewrite Z.mod_mod by lia.
Qed.

Lemma le_value_range4 (value : list byte) :
  List.length value = 4%nat -> 0 <= le_value value < 2 ^ 32.
Proof.
  intros H. pose proof (le_value_range value) as Hr. rewrite H in Hr.
  exact Hr.
Qed.

Lemma pack_unpack_i (value : list byte) :
  List.length value = 4%nat ->
  exists z, unpack_i value = inr z /\ - 2 ^ 31 <= z < 2 ^ 31 /\
            pack_i (PInt z) = inr value.
Proof.
  intros Hlen. pose proof (le_value_range4 value Hlen) as Hr.
  unfold unpack_i. rewrite Hlen. cbn [Nat.eqb].
  set (u := le_value value) in *.
  assert (Hback : forall z, z mod 2 ^ 32 = u -> le_bytes 4 z = value).
  { intros z Hz. rewrite <- (le_bytes_mod 4 z).
    change (256 ^ Z.of_nat 4) with (2 ^ 32). rewrite Hz.
    unfold u. rewrite <- Hlen at 1. apply le_bytes_le_value. }
  destruct (u <? 2 ^ 31) eqn:E.
  - apply Z.ltb_lt in E. exists u. split; [reflexivity|]. split; [lia|].
    destruct (unpack_pack_i u) as [-> _]; [lia|].
    f_equal. apply Hback. apply Z.mod_small. lia.
  - apply Z.ltb_ge in E. exists (u - 2 ^ 32). split; [reflexivity|].
    split; [lia|].
    destruct (unpack_pack_i (u - 2 ^ 32)) as [-> _]; [lia|].
    f_equal. apply Hback. symmetry. apply (Z.mod_unique _ _ (- 1)); lia.
Qed.

Lemma array_of_bytes_of_array (value : list byte) :
  List.length value = 4%nat ->
  exists v, array_of_bytes value = inr v /\
            representable "array" v = true /\
            bytes_of_array v = inr value.
Proof.
  intros Hlen.
  destruct value as [|b0 [|b1 [|b2 [|b3 [|]]]]]; try discriminate Hlen.
  pose proof (Z_of_byte_range b0). pose proof (Z_of_byte_range b1).
  pose proof (Z_of_byte_range b2). pose proof (Z_of_byte_range b3).
  eexists. split; [reflexivity|]. split.
  - cbn [representable String.eqb Ascii.eqb Bool.eqb is_byte_value].
    repeat (apply andb_true_intro; split);
      first [apply Z.leb_le | apply Z.ltb_lt]; lia.
  - destruct (array_round_trip (Z_of_byte b0) (Z_of_byte b1)
                (Z_of_byte b2) (Z_of_byte b3)) as [E _]; try assumption.
    cbv zeta in E. rewrite E, !byte_of_Z_of_byte. reflexivity.
Qed.

(** A number between [2^(d-1)] and [2^d] has [d] binary digits. *)
Lemma digits2_pos_unique (m : positive) (d : Z) :
  2 ^ (d - 1) <= Zpos m < 2 ^ d -> 0 < d -> Zpos (digits2_pos m) = d.
Proof.
  intros [Hlo Hhi] Hd.
  pose proof (digits2_pos_bounds m) as [Hlo' Hhi'].
  pose proof (Pos2Z.is_pos (digits2_pos m)) as Hpos.
  destruct (Z.lt_trichotomy (Zpos (digits2_pos m)) d) as [Hlt|[Heq|Hgt]].
  - assert (2 ^ Zpos (digits2_pos m) <= 2 ^ (d - 1))
      by (apply Z.pow_le_mono_r; lia). lia.
  - exact Heq.
  - assert (2 ^ d <= 2 ^ (Zpos (digits2_pos m) - 1))
      by (apply Z.pow_le_mono_r; lia). lia.
Qed.

Lemma digits2_pos_le (m : positive) (d : Z) :
  Zpos m < 2 ^ d -> 0 <= d -> Zpos (digits2_pos m) <= d.
Proof.
  intros Hhi Hd.
  pose proof (digits2_pos_bounds m) as [Hlo' _].
  destruct (Z_le_gt_dec (Zpos (digits2_pos m)) d) as [|Hgt]; [assumption|].
  assert (2 ^ d <= 2 ^ (Zpos (digits2_pos m) - 1))
    by (apply Z.pow_le_mono_r; lia). lia.
Qed.

(** The fields of any 32-bit pattern. *)
Lemma float32_split (u : Z) :
  0 <= u < 2 ^ 32 ->
  let s := Z.testbit u 31 in
  let ex := (u / 2 ^ 23) mod 256 in
  let frac := u mod 2 ^ 23 in
  0 <= ex < 256 /\ 0 <= frac < 2 ^ 23 /\
  u = sign_bit s + ex * 2 ^ 23 + frac.
Proof.
  intros Hu. cbv zeta.
  assert (Hex : 0 <= (u / 2 ^ 23) mod 256 < 256) by (apply Z.mod_pos_bound; lia).
  assert (Hfr : 0 <= u mod 2 ^ 23 < 2 ^ 23) by (apply Z.mod_pos_bound; lia).
  split; [exact Hex|]. split; [exact Hfr|].
  assert (Hs : sign_bit (Z.testbit u 31) = 2 ^ 31 * (u / 2 ^ 31)).
  { rewrite <- (Z.add_0_l 31) at 1.
    rewrite <- Z.shiftr_spec, Z.shiftr_div_pow2, Z.bit0_odd by lia.
    assert (Hq : 0 <= u / 2 ^ 31 < 2).
    { split; [apply Z.div_pos; lia|apply Z.div_lt_upper_bound; lia]. }
    assert (Hc : u / 2 ^ 31 = 0 \/ u / 2 ^ 31 = 1) by lia.
    destruct Hc as [-> | ->]; reflexivity. }
  rewrite Hs.
  pose proof (Z.div_mod u (2 ^ 23)) as H1.
  pose proof (Z.div_mod (u / 2 ^ 23) 256) as H2.
  assert (H3 : u / 2 ^ 23 / 256 = u / 2 ^ 31).
  { rewrite Z.div_div by lia. reflexivity. }
  rewrite H3 in H2. lia.
Qed.

(** Every 32-bit pattern is read as a valid float. *)
Lemma float32_of_bits_valid (u : Z) :
  0 <= u < 2 ^ 32 -> valid_binary 24 128 (float32_of_bits u) = true.
Proof.
  intros Hu. destruct (float32_split u Hu) as (Hex & Hfr & _).
  unfold float32_of_bits.
  destruct ((u / 2 ^ 23) mod 256 =? 0) eqn:E0.
  - destruct (u mod 2 ^ 23) as [|m|m] eqn:Ef; try reflexivity.
    cbn [valid_binary]. unfold bounded, canonical_mantissa, fexp, emin.
    pose proof (digits2_pos_le m 23) as Hd.
    pose proof (Pos2Z.is_pos (digits2_pos m)).
    apply andb_true_intro. split; [apply Z.eqb_eq|apply Z.leb_le]; lia.
  - destruct ((u / 2 ^ 23) mod 256 =? 255) eqn:E255.
    + destruct (u mod 2 ^ 23 =? 0); reflexivity.
    + apply Z.eqb_neq in E0, E255.
      destruct (u mod 2 ^ 23 + 2 ^ 23) as [|m|m] eqn:Ef; try reflexivity.
      cbn [valid_binary]. unfold bounded, canonical_mantissa, fexp, emin.
      assert (Hd : Zpos (digits2_pos m) = 24)
        by (apply digits2_pos_unique; lia).
      apply andb_true_intro. split; [apply Z.eqb_eq|apply Z.leb_le]; lia.
Qed.

(** A pattern that is no NaN is the encoding of the float it is read as. *)
Lemma bits_of_float32_of_bits (u : Z) :
  0 <= u < 2 ^ 32 ->
  bits_of_float32 (float32_of_bits u) =
    if ((u / 2 ^ 23) mod 256 =? 255) && negb (u mod 2 ^ 23 =? 0)
    then 255 * 2 ^ 23 + 2 ^ 22 else u.
Proof.
  intros Hu. destruct (float32_split u Hu) as (Hex & Hfr & Hsum).
  cbv zeta in Hsum. unfold float32_of_bits.
  destruct ((u / 2 ^ 23) mod 256 =? 0) eqn:E0.
  - apply Z.eqb_eq in E0. rewrite E0 in *. cbn [Z.eqb andb].
    destruct (u mod 2 ^ 23) as [|m|m] eqn:Ef; try lia.
    + cbn [bits_of_float32]. lia.
    + cbn [bits_of_float32].
      replace (Zpos m <? 2 ^ 23) with true by (symmetry; apply Z.ltb_lt; lia).
      lia.
  - apply Z.eqb_neq in E0.
    destruct ((u / 2 ^ 23) mod 256 =? 255) eqn:E255.
    + apply Z.eqb_eq in E255. cbn [andb].
      destruct (u mod 2 ^ 23 =? 0) eqn:Ez; cbn [negb bits_of_float32].
      * apply Z.eqb_eq in Ez. lia.
      * reflexivity.
    + cbn [andb].
      destruct (u mod 2 ^ 23 + 2 ^ 23) as [|m|m] eqn:Ef; try lia.
      cbn [bits_of_float32].
      replace (Zpos m <? 2 ^ 23) with false by (symmetry; apply Z.ltb_ge; lia).
      lia.
Qed.

(** Converting a float to a double and back gives the float. *)
Lemma float32_of_double_of_float32 (g : spec_float) :
  valid_binary 24 128 g = true ->
  float32_of_double (double_of_float32 g) = g.
Proof.
  destruct g as [s|s| |s m' e']; try reflexivity.
  cbn [valid_binary]. unfold bounded, canonical_mantissa, fexp, emin.
  intros Hg. apply andb_prop in Hg as [Hc He].
  apply Z.eqb_eq in Hc. apply Z.leb_le in He.
  pose proof (Pos2Z.is_pos (digits2_pos m')) as Hpos.
  destruct (53 - Zpos (digits2_pos m')) as [|k|k] eqn:Ek; try lia.
  replace e' with ((e' - Zpos k) + Zpos k) at 1 by lia.
  rewrite double_of_float32_exact by lia.
  rewrite float32_of_double_exact by lia.
  f_equal. lia.
Qed.

Lemma pack_unpack_f (value : list byte) :
  List.length value = 4%nat ->
  exists f,
    unpack_f value = inr f /\ float32_exact f = true /\
    pack_f (PFloat f) =
      inr (if is_nan_pattern value then nan_bytes else value).
Proof.
  intros Hlen. pose proof (le_value_range4 value Hlen) as Hr.
  pose proof (float32_of_bits_valid _ Hr) as Hvalid.
  unfold unpack_f. rewrite Hlen. cbn [Nat.eqb].
  eexists. split; [reflexivity|]. split.
  - apply float32_exact_iff. eexists. split; [exact Hvalid|reflexivity].
  - unfold pack_f. cbn [as_double bind ret].
    rewrite (float32_of_double_of_float32 _ Hvalid).
    assert (Hinf : is_infinity (float32_of_bits (le_value value))
                   && negb (is_infinity
                              (double_of_float32
                                 (float32_of_bits (le_value value)))) = false).
    { destruct (float32_of_bits (le_value value)); reflexivity. }
    rewrite Hinf, (bits_of_float32_of_bits _ Hr).
    unfold is_nan_pattern.
    destruct (((le_value value / 2 ^ 23) mod 256 =? 255)
              && negb (le_value value mod 2 ^ 23 =? 0)).
    + reflexivity.
    + unfold ret. f_equal. rewrite <- Hlen at 1. apply le_bytes_le_value.
Qed.

(** X13. Whatever four bytes a frame carries, the value that an entry of
    a known type publishes for them is a typed value of that type: an
    integer in the signed 32-bit range, a double that a float holds
    exactly, or a list of four integers in 0..255. *)
Theorem decoded_is_representable (ty : string) (value : list byte)
    (Hknown : known_type ty = true)
    (Hlen : List.length value = 4%nat) :
  decode_value ty value None = inr (decoded ty value) /\
  representable ty (decoded ty value) = true.
Proof.
  split; [now apply decode_value_known|].
  unfold decoded, decode_value, representable, known_type in *.
  destruct (String.eqb ty "int32").
  { destruct (pack_unpack_i value Hlen) as (z & -> & Hz & _).
    cbn [bind ret]. apply andb_true_intro.
    split; [apply Z.leb_le|apply Z.ltb_lt]; lia. }
  destruct (String.eqb ty "float").
  { destruct (pack_unpack_f value Hlen) as (f & -> & Hf & _). exact Hf. }
  destruct (String.eqb ty "array"); [|discriminate Hknown].
  destruct (array_of_bytes_of_array value Hlen) as (v & -> & Hv & _).
  exact Hv.
Qed.

Lemma decoded_is_representable_witness :
  representable "float" (decoded "float" [x00; x00; x60; x40]) = true.
Proof.
  exact (proj2 (decoded_is_representable "float" [x00; x00; x60; x40]
                  eq_refl eq_refl)).
Defined.

(** The entry's encoding of the value decoded from four bytes. *)
Lemma encode_of_decoded (ty : string) (value : list byte)
    (Hknown : known_type ty = true)
    (Hlen : List.length value = 4%nat) :
  encode_value ty (decoded ty value) =
    inr (Bound (if String.eqb ty "float" && is_nan_pattern value
                then nan_bytes else value)).
Proof.
  unfold decoded, decode_value, encode_value, known_type in *.
  destruct (String.eqb ty "int32") eqn:Ei.
  { apply String.eqb_eq in Ei. subst ty. cbn [String.eqb Ascii.eqb Bool.eqb andb].
    destruct (pack_unpack_i value Hlen) as (z & -> & _ & Hp).
    cbn [bind ret]. now rewrite Hp. }
  destruct (String.eqb ty "float").
  { destruct (pack_unpack_f value Hlen) as (f & -> & _ & Hp).
    cbn [bind ret andb]. now rewrite Hp. }
  destruct (String.eqb ty "array"); [|discriminate Hknown].
  destruct (array_of_bytes_of_array value Hlen) as (v & -> & _ & Hp).
  cbn [andb]. now rewrite Hp.
Qed.



(** ** Echo *)

Lemma getitem_str_singleton (name : string) (d : pyval) :
  getitem_str (PDict [(name, d)]) name = inr d.
Proof.
  cbn [getitem_str assoc]. now rewrite String.eqb_refl.
Qed.

(** X15. Echo through the broker. A frame is published, for every entry
    of a known type that carries its identifier, as an object which, sent
    back as a message on that entry's topic, makes [on_message] write the
    seven bytes of the same frame; only a float payload that is a NaN comes
    back as 00 00 C0 7F. *)
Theorem echo_reproduces_frame (json_loads : list byte -> result pyval)
    (topics : lookup) (f : frame) (msg : message)
    (t0 : string) (t1 : entry)
    (Hlen : List.length (frame_payload f) = 4%nat)
    (Htyped : table_typed (lookup_table topics) = true)
    (Hentry : first_topic (lookup_table topics) (topic msg) = Some (t0, t1))
    (Hid : entry_id t1 = Z_of_byte (identifier f))
    (Hobj : json_loads (payload msg) =
            inr (PDict [(entry_name t1,
                         decoded (entry_type t1) (frame_payload f))])) :
  exists pevs evs,
    poll_FTMQ (init topics) (wire f) = (pevs, Returned (init topics)) /\
    In (t0, PDict [(entry_name t1, decoded (entry_type t1) (frame_payload f))])
       (publishes pevs) /\
    on_message json_loads (init topics) msg = (evs, Returned (init topics)) /\
    List.concat (serial_writes evs) =
      wire (Frame (identifier f)
              (if String.eqb (entry_type t1) "float"
                  && is_nan_pattern (frame_payload f)
               then nan_bytes else frame_payload f)).
Proof.
  pose proof (first_topic_some _ _ _ _ Hentry) as [Hin _].
  assert (Hk : known_type (entry_type t1) = true).
  { unfold table_typed in Htyped. rewrite forallb_forall in Htyped.
    exact (Htyped _ Hin). }
  assert (Hrange : 0 <= entry_id t1 < 256).
  { rewrite Hid. apply Z_of_byte_range. }
  destruct (poll_wire_typed topics f Htyped Hlen) as (pevs & Ep & _ & Hp & _).
  exists pevs. eexists. split; [exact Ep|]. split.
  { rewrite Hp. apply in_map_iff. exists (t0, t1). split; [reflexivity|].
    unfold matching. apply filter_In. split; [exact Hin|].
    cbn [snd]. now apply Z.eqb_eq. }
  unfold on_message. cbn [init topics_lookup].
  rewrite (on_message_items_first json_loads _ (init topics) msg t0 t1 Hentry).
  rewrite (checked_byte_ok _ Hrange). unfold try_write.
  rewrite Hobj. cbn [bind]. rewrite getitem_str_singleton. cbn [bind].
  rewrite (encode_of_decoded _ _ Hk Hlen).
  split; [reflexivity|].
  cbn [serial_writes List.concat app]. rewrite app_nil_r.
  rewrite Hid, byte_of_Z_of_byte. reflexivity.
Qed.

Lemma echo_reproduces_frame_witness :
  let msg := Message "home/setpoint" [] in
  let loads := loads_constant (PDict [("value", PInt 42)]) in
  exists pevs evs,
    poll_FTMQ (init sample_topics) (wire sample_frame)
      = (pevs, Returned (init sample_topics)) /\
    In ("home/setpoint", PDict [("value", PInt 42)]) (publishes pevs) /\
    on_message loads (init sample_topics) msg
      = (evs, Returned (init sample_topics)) /\
    List.concat (serial_writes evs) = wire sample_frame.
Proof.
  intros msg loads.
  exact (echo_reproduces_frame loads sample_topics sample_frame msg
           "home/setpoint" (Entry 1 "int32" "value")
           eq_refl eq_refl eq_refl eq_refl eq_refl).
Defined.

(** X16. The frame that [start_FTMQ] sends is a whole frame of the
    protocol: the bridge object is unchanged, and the bytes written, fed to
    a parser between frames with a table of known types, are reported as
    exactly one frame, with identifier 0 and four zero bytes. *)
Theorem start_frame_is_one_frame (self : bridge) (topics : lookup)
    (Htyped : table_typed (lookup_table topics) = true) :
  exists wr evs,
    start_FTMQ self = (wr, Returned self) /\
    List.length (List.concat (serial_writes wr)) = 7%nat /\
    poll_FTMQ (init topics) (List.concat (serial_writes wr))
      = (evs, Returned (init topics)) /\
    emitted_frames evs = [Frame x00 [x00; x00; x00; x00]] /\
    publishes evs =
      map (publish_of [x00; x00; x00; x00])
          (matching (lookup_table topics) x00).
Proof.
  destruct (poll_wire_typed topics (Frame x00 [x00; x00; x00; x00])
              Htyped eq_refl) as (evs & E & Hf & Hp & _).
  eexists _, evs. split; [reflexivity|]. split; [reflexivity|].
  split; [exact E|]. split; [exact Hf|exact Hp].
Qed.

Lemma start_frame_is_one_frame_witness :
  table_typed (lookup_table sample_topics) = true /\
  exists wr evs,
    start_FTMQ (init sample_topics) = (wr, Returned (init sample_topics)) /\
    poll_FTMQ (init sample_topics) (List.concat (serial_writes wr))
      = (evs, Returned (init sample_topics)) /\
    emitted_frames evs = [Frame x00 [x00; x00; x00; x00]].
Proof.
  split; [reflexivity|].
  destruct (start_frame_is_one_frame (init sample_topics) sample_topics eq_refl)
    as (wr & evs & E1 & _ & E2 & Hf & _).
  exists wr, evs. repeat split; assumption.
Defined.

(** X17. Polling is online: what was printed and published for a prefix of
    the input stays as it is when more bytes follow, and once a call has
    raised on a prefix the bytes after it are not read. *)
Theorem poll_is_online (self : bridge) (xs ys : list byte) :
  (exists more,
      fst (poll_FTMQ self (xs ++ ys)) = fst (poll_FTMQ self xs) ++ more) /\
  (forall e self',
      snd (poll_FTMQ self xs) = Raised e self' ->
      poll_FTMQ self (xs ++ ys) = poll_FTMQ self xs) /\
  (forall self',
      snd (poll_FTMQ self xs) = Returned self' ->
      snd (poll_FTMQ self (xs ++ ys)) = snd (poll_FTMQ self' ys)).
Proof.
  rewrite poll_app.
  destruct (poll_FTMQ self xs) as [evs [s1|e1 s1]]; cbn [fst snd].
  - destruct (poll_FTMQ s1 ys) as [evs' r] eqn:E. cbn [fst snd].
    split; [now exists evs'|]. split; [discriminate|].
    intros self' H. injection H as <-. now rewrite E.
  - split; [exists []; now rewrite app_nil_r|]. split; [reflexivity|discriminate].
Qed.
